(** * Device_Embedding/C/main.c: capture, detect, buzz

    A shallow embedding of [main] (the only function of the program) and the
    properties of its capture loop, detector hand-off, result read and buzzer
    stage.

    The program talks to a camera, a keyboard, the clock, the file system, an
    external detector process and the GPIO layer.  Everything it receives from
    them is gathered in a [world] record; everything it does to them is
    recorded, in program order, as a list of [event]s.  [main w] is then a
    function from a world to the trace of the run and its outcome. *)

From Stdlib Require Import ZArith List String Ascii Bool Lia.
From Stdlib Require Import DecimalString DecimalZ.
Import ListNotations.

Local Open Scope string_scope.
Local Open Scope list_scope.
Local Open Scope Z_scope.

(** ** Constants of the source *)

(** [#define BUZZER_PIN 32] *)
Definition BUZZER_PIN : Z := 32.

(** wiringPi's pin levels and pin modes. *)
Inductive level : Type := LOW | HIGH.
Inductive pin_mode : Type := INPUT | OUTPUT.

(** [cv::WINDOW_NORMAL], the only window flag the program uses. *)
Inductive window_flag : Type := WINDOW_NORMAL.

(** The newline character of the C string literals. *)
Definition nl : string := String "010" EmptyString.

(** ['q'] and ['s'] as character codes. *)
Definition key_q : Z := 113.
Definition key_s : Z := 115.

(** [char line[100];] so [sizeof(line)] is 100. *)
Definition sizeof_line : Z := 100.

(** [char filename[20];] of line 39. *)
Definition sizeof_filename : Z := 20.

(** The command line of line 54, a string literal in the source. *)
Definition detector_command : string :=
  "python3 detect.py --weights yolov5s-fp16.tflite --img 640 --conf 0.25 --source image1.jpg --save-txt ".

(** [char filename[] = "image1.txt";] of line 61. *)
Definition result_filename : string := "image1.txt".

(** ** Events: the calls with an effect outside the program *)

Inductive event : Type :=
| EVideoCapture (index : Z) (opened : bool) (* cv::VideoCapture cap(0) *)
| EPrintf (out : string)                  (* printf: the text written to stdout *)
| ECapRead                                (* cap.read(frame) *)
| ENamedWindow (name : string) (f : window_flag)
| EImshow (name : string)
| EWaitKey (ms : Z)
| EImwrite (filename : string)
| ECapRelease                             (* cap.release() *)
| EDestroyAllWindows
| ESystem (cmd : string)
| EFopen (path mode : string) (ok : bool)  (* ok = false: fopen returned NULL *)
| EFclose
| EWiringPiSetupGpio
| EPinMode (pin : Z) (m : pin_mode)
| EDigitalWrite (pin : Z) (l : level)
| EDelay (ms : Z)
| ECapDestructor.                         (* ~VideoCapture() when [main] returns *)

(** ** The environment *)

(** What one iteration of the [while] loop receives: whether [cap.read] filled
    the frame, the value of [time(NULL)] and the result of [cv::imwrite]
    (both consulted only when the pending key is ['s']), and the value
    returned by the [cv::waitKey(1)] that ends the iteration. *)
Record tick : Type := mkTick {
  t_frame : bool;
  t_time : Z;
  t_imwrite : bool;
  t_key : Z
}.

(** [w_result] is the content of image1.txt when [fopen] succeeds and [None]
    when it returns [NULL]. *)
Record world : Type := mkWorld {
  w_camera : bool;           (* cap.isOpened() *)
  w_frame0 : bool;           (* the first cap.read filled the frame *)
  w_key0 : Z;                (* the first cv::waitKey(1) *)
  w_ticks : list tick;       (* the loop iterations observed so far *)
  w_detector : Z;            (* the value returned by system() *)
  w_result : option string;
  w_gpio : Z                 (* the value returned by wiringPiSetupGpio() *)
}.

(** ** A monad for a run of [main]

    A computation emits events and then either goes on with a value, leaves
    [main] through a [return] statement, is still waiting for input (the
    observed iterations are used up while the loop is running), has used up
    the fuel of the file-reading loop, or has written past the end of a
    buffer, after which the behaviour of the program is undefined. *)

Inductive result (A : Type) : Type :=
| Val (a : A)
| Return (code : Z)
| Await (key : Z)
| OutOfFuel
| Undefined.

Arguments Val {A} a.
Arguments Return {A} code.
Arguments Await {A} key.
Arguments OutOfFuel {A}.
Arguments Undefined {A}.

Definition M (A : Type) : Type := (list event * result A)%type.

Definition ret {A} (a : A) : M A := ([], Val a).

Definition bind {A B} (m : M A) (f : A -> M B) : M B :=
  match m with
  | (evs, Val a) => let (evs', r) := f a in (evs ++ evs', r)
  | (evs, Return c) => (evs, Return c)
  | (evs, Await k) => (evs, Await k)
  | (evs, OutOfFuel) => (evs, OutOfFuel)
  | (evs, Undefined) => (evs, Undefined)
  end.

Declare Scope run_scope.
Delimit Scope run_scope with run.
Notation "x <- m ;; k" := (bind m (fun x => k))
  (at level 61, m at next level, right associativity) : run_scope.
Notation "m ;; k" := (bind m (fun _ => k))
  (at level 61, right associativity) : run_scope.
Local Open Scope run_scope.

Definition emit (e : event) : M unit := ([e], Val tt).
Definition printf (s : string) : M unit := emit (EPrintf s).
Definition return_ {A} (code : Z) : M A := ([], Return code).
Definition when (b : bool) (m : M unit) : M unit := if b then m else ret tt.

(** ** Pieces of C the program relies on *)

(** [char key = cv::waitKey(1);] keeps the low eight bits of the [int].  The
    comparisons with ['q'] and ['s'] only depend on those bits, whether [char]
    is signed or not; the unsigned reading is used here. *)
Definition char_of_int (k : Z) : Z := k mod 256.

(** [%d] reads an [int]: the value of [time(NULL)] wrapped to 32 bits, two's
    complement. *)
Definition int_of_time (t : Z) : Z := (t + 2147483648) mod 4294967296 - 2147483648.

(** [%d] conversion. *)
Definition string_of_Z (z : Z) : string := NilEmpty.string_of_int (Z.to_int z).

(** The text that [sprintf(filename, "image%d.jpg", time(NULL))] builds.
    Whether it fits the 20 bytes of [filename] is [filename_fits] below. *)
Definition image_filename (t : Z) : string :=
  ("image" ++ string_of_Z (int_of_time t) ++ ".jpg")%string.

(** A C string ends at its first NUL: what [printf("%s", line)] writes. *)
Fixpoint c_str (s : string) : string :=
  match s with
  | EmptyString => EmptyString
  | String c s' => if Ascii.eqb c "000" then EmptyString else String c (c_str s')
  end.

(** [fgets] copies at most [n] characters and stops after a newline; it
    returns the characters copied and the rest of the stream. *)
Fixpoint fgets_chars (n : nat) (s : string) : string * string :=
  match n, s with
  | O, _ => (EmptyString, s)
  | _, EmptyString => (EmptyString, EmptyString)
  | S n', String c s' =>
      if Ascii.eqb c "010" then (String c EmptyString, s')
      else let (l, r) := fgets_chars n' s' in (String c l, r)
  end.

(** [fgets(line, size, file)]: [None] is the [NULL] of end of file. *)
Definition fgets (size : Z) (s : string) : option (string * string) :=
  match s with
  | EmptyString => None
  | _ => Some (fgets_chars (Z.to_nat (size - 1)) s)
  end.

(** ** The stages of [main] *)

(** Lines 10-14. *)
Definition open_camera (w : world) : M unit :=
  emit (EVideoCapture 0 (w_camera w)) ;;
  when (negb (w_camera w))
    (printf ("Cannot open camera." ++ nl) ;; return_ (-1)).

(** Lines 16-27: the first frame, the preview window and the first key. *)
Definition first_frame (w : world) : M Z :=
  emit ECapRead ;;
  when (negb (w_frame0 w))
    (printf ("Cannot read frame." ++ nl) ;; return_ (-1)) ;;
  emit (ENamedWindow "Camera" WINDOW_NORMAL) ;;
  emit (EImshow "Camera") ;;
  emit (EWaitKey 1) ;;
  ret (char_of_int (w_key0 w)).

(** The name built for clock value [t] fits [filename] with its final NUL. *)
Definition filename_fits (t : Z) : bool :=
  Z.of_nat (String.length (image_filename t)) <? sizeof_filename.

(** Lines 37-46: the body of [if (key == 's')].  When the name and its NUL
    need more than the 20 bytes of [filename], [sprintf] writes past the end
    of the buffer and the behaviour is undefined from there on. *)
Definition save_frame (t : tick) : M unit :=
  let filename := image_filename (t_time t) in
  if filename_fits (t_time t)
  then
    emit (EImwrite filename) ;;
    if t_imwrite t
    then printf ("image saved: " ++ filename ++ nl)
    else printf ("failed to save." ++ nl)
  else ([], Undefined).

(** Lines 28-48: [while (key != 'q')].  [Val tt] is the loop left, by its
    condition or by [break]; [Await key] is the loop still running with the
    pending [key] when the observed iterations end; [Undefined] is a save
    whose file name did not fit. *)
Fixpoint capture_loop (key : Z) (ticks : list tick) : M unit :=
  if key =? key_q then ret tt
  else
    match ticks with
    | [] => ([], Await key)
    | t :: rest =>
        emit ECapRead ;;
        if negb (t_frame t)
        then printf ("Cannot read frame." ++ nl)
        else
          emit (EImshow "Camera") ;;
          when (key =? key_s) (save_frame t) ;;
          emit (EWaitKey 1) ;;
          capture_loop (char_of_int (t_key t)) rest
    end.

(** Lines 50-51. *)
Definition teardown : M unit :=
  emit ECapRelease ;;
  emit EDestroyAllWindows.

(** Line 54: the value of [system] is discarded. *)
Definition run_detector (w : world) : M unit :=
  emit (ESystem detector_command).

(** Lines 72-74: [while (fgets(line, sizeof(line), file) != NULL)]. *)
Fixpoint print_lines (fuel : nat) (content : string) : M unit :=
  match fgets sizeof_line content with
  | None => ret tt
  | Some (line, rest) =>
      match fuel with
      | O => ([], OutOfFuel)
      | S fuel' => printf (c_str line) ;; print_lines fuel' rest
      end
  end.

(** Lines 59-77.  Every [fgets] that succeeds takes at least one character,
    so the length of the content is fuel enough ([print_lines_total]). *)
Definition read_result (w : world) : M unit :=
  match w_result w with
  | None =>
      emit (EFopen result_filename "r" false) ;;
      printf ("Cannot open file." ++ nl) ;;
      return_ 1
  | Some content =>
      emit (EFopen result_filename "r" true) ;;
      print_lines (String.length content) content ;;
      emit EFclose
  end.

(** Lines 80-91. *)
Definition buzzer (w : world) : M unit :=
  emit EWiringPiSetupGpio ;;
  when (w_gpio w =? -1)
    (printf "failed to WiringPi library initialization" ;; return_ (-1)) ;;
  when (1 <? sizeof_line)
    (emit (EPinMode BUZZER_PIN OUTPUT) ;;
     emit (EDigitalWrite BUZZER_PIN HIGH) ;;
     emit (EDelay 500) ;;
     emit (EDigitalWrite BUZZER_PIN LOW) ;;
     emit (EDelay 500)).

(** Lines 50-92: what follows the loop. *)
Definition after_loop (w : world) : M unit :=
  teardown ;;
  run_detector w ;;
  read_result w ;;
  buzzer w ;;
  return_ 0.

(** The statements of [main], lines 10-92. *)
Definition main_body (w : world) : M unit :=
  open_camera w ;;
  key <- first_frame w ;;
  capture_loop key (w_ticks w) ;;
  after_loop w.

(** [cap] (line 10) is an automatic object of class [cv::VideoCapture]:
    each [return] of [main] leaves its scope and runs its destructor, which
    releases the device if it is still held.  The run ends there. *)
Definition main (w : world) : M unit :=
  match main_body w with
  | (evs, Return c) => (evs ++ [ECapDestructor], Return c)
  | r => r
  end.

(** ** Reading a trace *)

Definition is_system (e : event) : bool :=
  match e with ESystem _ => true | _ => false end.

Definition is_fopen (e : event) : bool :=
  match e with EFopen _ _ _ => true | _ => false end.

Definition is_fclose (e : event) : bool :=
  match e with EFclose => true | _ => false end.

Definition is_gpio_setup (e : event) : bool :=
  match e with EWiringPiSetupGpio => true | _ => false end.

Definition is_pin_write (e : event) : bool :=
  match e with EDigitalWrite _ _ => true | _ => false end.

(** Every call into the GPIO layer after its initialisation. *)
Definition is_pin_event (e : event) : bool :=
  match e with
  | EPinMode _ _ | EDigitalWrite _ _ | EDelay _ => true
  | _ => false
  end.

(** The events the capture loop can produce. *)
Definition is_capture_event (e : event) : bool :=
  match e with
  | ECapRead | EImshow _ | EImwrite _ | EWaitKey _ | EPrintf _ => true
  | _ => false
  end.

(** The calls that use the camera or the preview window. *)
Definition is_preview_event (e : event) : bool :=
  match e with
  | ECapRead | ENamedWindow _ _ | EImshow _ | EWaitKey _ | EImwrite _ => true
  | _ => false
  end.

Definition is_printf (e : event) : bool :=
  match e with EPrintf _ => true | _ => false end.

(** The calls to [digitalWrite], in order. *)
Definition pin_writes (tr : list event) : list event := filter is_pin_write tr.

(** The file names handed to [cv::imwrite], in order. *)
Fixpoint saved_files (tr : list event) : list string :=
  match tr with
  | [] => []
  | EImwrite f :: tr' => f :: saved_files tr'
  | _ :: tr' => saved_files tr'
  end.

Definition count (p : event -> bool) (tr : list event) : nat :=
  List.length (filter p tr).

(** The pulse of lines 86-90. *)
Definition pulse : list event :=
  [EPinMode BUZZER_PIN OUTPUT;
   EDigitalWrite BUZZER_PIN HIGH; EDelay 500;
   EDigitalWrite BUZZER_PIN LOW; EDelay 500].

(** Resources held after a trace: the camera device, the preview window, the
    result file. *)
Record resources : Type := mkResources {
  camera_held : bool;
  preview_open : bool;
  file_open : bool
}.

Definition no_resources : resources := mkResources false false false.

Definition track (r : resources) (e : event) : resources :=
  match e with
  | EVideoCapture _ opened => mkResources opened (preview_open r) (file_open r)
  | ECapRelease | ECapDestructor => mkResources false (preview_open r) (file_open r)
  | ENamedWindow _ _ | EImshow _ => mkResources (camera_held r) true (file_open r)
  | EDestroyAllWindows => mkResources (camera_held r) false (file_open r)
  | EFopen _ _ ok => mkResources (camera_held r) (preview_open r) ok
  | EFclose => mkResources (camera_held r) (preview_open r) false
  | _ => r
  end.

Definition held_after (tr : list event) : resources :=
  fold_left track tr no_resources.



(** Updates of single fields of the environment. *)
Definition set_detector (w : world) (status : Z) : world :=
  mkWorld (w_camera w) (w_frame0 w) (w_key0 w) (w_ticks w) status (w_result w) (w_gpio w).

Definition set_gpio (w : world) (g : Z) : world :=
  mkWorld (w_camera w) (w_frame0 w) (w_key0 w) (w_ticks w) (w_detector w) (w_result w) g.


(** Every file name the loop builds fits [filename]: in each iteration
    entered with ['s'] pending, the name for the clock value of that
    iteration has at most 19 characters. *)
Fixpoint saves_fit (key : Z) (ticks : list tick) : bool :=
  match ticks with
  | [] => true
  | t :: rest =>
      (if key =? key_s then filename_fits (t_time t) else true)
        && saves_fit (char_of_int (t_key t)) rest
  end.

(** ** The vocabulary of the specification, for comparison with the code *)

(** White space, as trimming removes it. *)
Definition is_space (c : ascii) : bool :=
  match nat_of_ascii c with
  | 9%nat | 10%nat | 11%nat | 12%nat | 13%nat | 32%nat => true
  | _ => false
  end.

(** A line is empty after trimming exactly when all its characters are white
    space. *)
Fixpoint blank (s : string) : bool :=
  match s with
  | EmptyString => true
  | String c s' => is_space c && blank s'
  end.

Fixpoint lines_of (s : string) : list string :=
  match s with
  | EmptyString => [EmptyString]
  | String c s' =>
      if Ascii.eqb c "010" then EmptyString :: lines_of s'
      else match lines_of s' with
           | l :: ls => String c l :: ls
           | [] => [String c EmptyString]
           end
  end.

(** Section 4.4 of the specification: [hasDetection] is true iff at least one
    line, after trimming, is non-empty. *)
Definition spec_hasDetection (content : string) : bool :=
  existsb (fun l => negb (blank l)) (lines_of content).

(** The test the code makes instead, line 85: [sizeof(line) > 1]. *)
Definition code_detection : bool := 1 <? sizeof_line.

(** The detector's command line for a given source image. *)
Definition detector_invocation (source : string) : string :=
  ("python3 detect.py --weights yolov5s-fp16.tflite --img 640 --conf 0.25 --source "
     ++ source ++ " --save-txt ")%string.

(** The path with its extension removed: up to the last dot. *)
Fixpoint base_name (p : string) : string :=
  match p with
  | EmptyString => EmptyString
  | String c p' =>
      if Ascii.eqb c "." && negb (existsb (Ascii.eqb ".") (list_ascii_of_string p'))
      then EmptyString
      else String c (base_name p')
  end.

(** The result path derived from an image path: base name plus [.txt]. *)
Definition result_path (image : string) : string :=
  (base_name image ++ ".txt")%string.

(** The events before the loop on a run that gets that far. *)
Definition preamble : list event :=
  [EVideoCapture 0 true; ECapRead; ENamedWindow "Camera" WINDOW_NORMAL;
   EImshow "Camera"; EWaitKey 1].

(** The events of one save. *)
Definition save_events (key : Z) (t : tick) : list event :=
  if key =? key_s
  then [EImwrite (image_filename (t_time t));
        EPrintf (if t_imwrite t
                 then "image saved: " ++ image_filename (t_time t) ++ nl
                 else "failed to save." ++ nl)%string]
  else [].

(** What reading a result file prints. *)
Definition line_events (content : string) : list event :=
  fst (print_lines (String.length content) content).

(** The events from [cap.release()] to [fclose] when the file opens. *)
Definition read_events (content : string) : list event :=
  [ECapRelease; EDestroyAllWindows; ESystem detector_command;
   EFopen result_filename "r" true] ++ line_events content ++ [EFclose].

(** ** Concrete environments *)

(** A second of October 2023. *)
Definition some_second : Z := 1700000000.

(** One line of detector output. *)
Definition detection_line : string := ("person 0.91 10 20 30 40" ++ nl)%string.

(** ['q'] at once; the detector succeeds and leaves an empty image1.txt. *)
Definition w_empty_result : world :=
  mkWorld true true key_q [] 0 (Some EmptyString) 0.

(** One save, then ['q']; the detector leaves an empty image1.txt. *)
Definition w_save_empty_result : world :=
  mkWorld true true key_s [mkTick true some_second true key_q]
    0 (Some EmptyString) 0.

(** ['s'] pending over two iterations within the same second, then ['q']. *)
Definition w_two_saves : world :=
  mkWorld true true key_s
    [mkTick true some_second true key_s; mkTick true some_second true key_q]
    0 (Some detection_line) 0.

(** The detector exits with status 1 and image1.txt is there from before. *)
Definition w_detector_failed : world :=
  mkWorld true true key_q [] 1 (Some detection_line) 0.

(** One save, then ['q']; image1.txt cannot be opened. *)
Definition w_missing_result : world :=
  mkWorld true true key_s [mkTick true some_second true key_q] 0 None 0.

(** ['q'] at once, nothing saved; image1.txt cannot be opened. *)
Definition w_nothing_saved_missing : world :=
  mkWorld true true key_q [] 0 None 0.

(** ['q'] at once, nothing saved; image1.txt holds one detection. *)
Definition w_nothing_saved : world :=
  mkWorld true true key_q [] 0 (Some detection_line) 0.

(** The first frame cannot be read. *)
Definition w_no_first_frame : world :=
  mkWorld true false 0 [] 0 None 0.

(** A frame read fails inside the loop, after one save. *)
Definition w_read_fails : world :=
  mkWorld true true key_s
    [mkTick true some_second true 255; mkTick false 0 false 0]
    0 (Some detection_line) 0.

(** Keys ['s'], none, ['a'], ['s'] and no ['q']; 255 is the [char] of the -1
    that [cv::waitKey] returns when no key was pressed. *)
Definition w_no_quit : world :=
  mkWorld true true key_s
    [mkTick true some_second true (-1); mkTick true some_second true 97;
     mkTick true some_second true key_s; mkTick true (some_second + 1) false 255]
    0 None 0.

(** One save, a detection, and [wiringPiSetupGpio] returning -1. *)
Definition w_gpio_failed : world :=
  mkWorld true true key_s [mkTick true some_second true key_q]
    0 (Some detection_line) (-1).

(** ** Further vocabulary for environments and traces *)

(** The environment with other loop iterations. *)
Definition set_ticks (w : world) (ticks : list tick) : world :=
  mkWorld (w_camera w) (w_frame0 w) (w_key0 w) ticks
    (w_detector w) (w_result w) (w_gpio w).

(** Everything written to stdout, in order. *)
Fixpoint printed (tr : list event) : string :=
  match tr with
  | [] => EmptyString
  | EPrintf s :: tr' => (s ++ printed tr')%string
  | _ :: tr' => printed tr'
  end.

(** No NUL character in a string. *)
Fixpoint no_nul (s : string) : bool :=
  match s with
  | EmptyString => true
  | String c s' => negb (Ascii.eqb c "000") && no_nul s'
  end.

(** A [printf] of at most [n] characters. *)
Definition printf_within (n : nat) (e : event) : bool :=
  match e with
  | EPrintf s => (String.length s <=? n)%nat
  | _ => false
  end.

(** Two iterations that differ at most in the bits of the key code above the
    low eight. *)
Definition same_char_key (t t' : tick) : Prop :=
  t_frame t = t_frame t' /\ t_time t = t_time t'
  /\ t_imwrite t = t_imwrite t'
  /\ char_of_int (t_key t) = char_of_int (t_key t').

(** Two iterations alike in the frame read and the key, whatever the clock
    and [cv::imwrite] did. *)
Definition same_control (t t' : tick) : Prop :=
  t_frame t = t_frame t' /\ char_of_int (t_key t) = char_of_int (t_key t').

(** The calls on the camera, the window and the keyboard. *)
Definition is_camera_call (e : event) : bool :=
  match e with
  | ECapRead | EImshow _ | EWaitKey _ => true
  | _ => false
  end.

(** ['q'] with a modifier bit set above the low eight bits. *)
Definition key_q_flagged : Z := 1048576 + key_q.

(** Two iterations, then ['q']; a third iteration that is never reached. *)
Definition w_quit_then_more : world :=
  mkWorld true true key_s
    [mkTick true some_second true 97; mkTick true some_second true key_q;
     mkTick true some_second true key_s]
    0 (Some detection_line) 0.

(** As [w_two_saves], with flagged key codes. *)
Definition w_two_saves_flagged : world :=
  mkWorld true true (256 + key_s)
    [mkTick true some_second true (512 + key_s);
     mkTick true some_second true key_q_flagged]
    0 (Some detection_line) 0.

(** As [w_two_saves], with the second [cv::imwrite] failing a second later. *)
Definition w_two_saves_one_failed : world :=
  mkWorld true true key_s
    [mkTick true some_second true key_s;
     mkTick true (some_second + 1) false key_q]
    0 (Some detection_line) 0.



(** ** The run monad *)

Section Monad.
Context {A B C : Type}.

Lemma bind_ret_l (a : A) (f : A -> M B) : bind (ret a) f = f a.
Proof. unfold bind, ret. destruct (f a). reflexivity. Qed.

Lemma bind_assoc (m : M A) (f : A -> M B) (g : B -> M C) :
  bind (bind m f) g = bind m (fun a => bind (f a) g).
Proof.
  destruct m as [evs [a | c | k | | ]]; simpl; try reflexivity.
  destruct (f a) as [evs1 [b | c | k | | ]]; simpl; try reflexivity.
  destruct (g b) as [evs2 r]. now rewrite app_assoc.
Qed.

Lemma bind_emit (e : event) (f : unit -> M B) :
  bind (emit e) f = (e :: fst (f tt), snd (f tt)).
Proof. unfold bind, emit. destruct (f tt). reflexivity. Qed.

End Monad.

(** ** The capture loop, one equation per way through its body *)

Lemma save_frame_run (t : tick) :
  filename_fits (t_time t) = true ->
  save_frame t = (save_events key_s t, Val tt).
Proof.
  intros Fit. unfold save_frame, save_events. rewrite Fit. simpl.
  now destruct (t_imwrite t).
Qed.

Lemma save_frame_overflow (t : tick) :
  filename_fits (t_time t) = false -> save_frame t = ([], Undefined).
Proof. intros Fit. unfold save_frame. now rewrite Fit. Qed.

(** An iteration either saves under a name that does not fit, or does not. *)
Lemma save_decision (key : Z) (t : tick) :
  (key = key_s /\ filename_fits (t_time t) = false)
  \/ (key = key_s -> filename_fits (t_time t) = true).
Proof.
  destruct (Z.eq_dec key key_s) as [K | K];
    destruct (filename_fits (t_time t)); auto;
    right; intros K'; now destruct K.
Qed.

Lemma capture_loop_quit (ticks : list tick) :
  capture_loop key_q ticks = ([], Val tt).
Proof. destruct ticks; reflexivity. Qed.

Lemma capture_loop_nil (key : Z) :
  key <> key_q -> capture_loop key [] = ([], Await key).
Proof. intros H. simpl. apply Z.eqb_neq in H. now rewrite H. Qed.

Lemma capture_loop_break (key : Z) (t : tick) (rest : list tick) :
  key <> key_q -> t_frame t = false ->
  capture_loop key (t :: rest)
  = ([ECapRead; EPrintf ("Cannot read frame." ++ nl)%string], Val tt).
Proof.
  intros H F. simpl. apply Z.eqb_neq in H. rewrite H, F. reflexivity.
Qed.

Lemma capture_loop_cons (key : Z) (t : tick) (rest : list tick) :
  key <> key_q -> t_frame t = true ->
  (key = key_s -> filename_fits (t_time t) = true) ->
  capture_loop key (t :: rest)
  = (ECapRead :: EImshow "Camera" :: save_events key t
       ++ EWaitKey 1 :: fst (capture_loop (char_of_int (t_key t)) rest),
     snd (capture_loop (char_of_int (t_key t)) rest)).
Proof.
  intros H F Fit. cbn [capture_loop]. apply Z.eqb_neq in H. rewrite H, F.
  cbn [negb]. unfold when, save_events.
  destruct (capture_loop (char_of_int (t_key t)) rest) as [evs r].
  destruct (key =? key_s) eqn:K.
  - apply Z.eqb_eq in K. rewrite (save_frame_run t (Fit K)).
    unfold save_events. rewrite Z.eqb_refl. reflexivity.
  - reflexivity.
Qed.

Lemma capture_loop_overflow (key : Z) (t : tick) (rest : list tick) :
  key = key_s -> t_frame t = true -> filename_fits (t_time t) = false ->
  capture_loop key (t :: rest) = ([ECapRead; EImshow "Camera"], Undefined).
Proof.
  intros -> F Fit. cbn [capture_loop]. rewrite F.
  change (key_s =? key_q) with false. change (key_s =? key_s) with true.
  cbn [negb when]. now rewrite (save_frame_overflow t Fit).
Qed.

(** The loop never leaves [main] and never runs out of fuel: it is left, or
    still waiting with a pending key other than ['q'], or it has overflowed
    [filename]. *)
Lemma capture_loop_outcome (ticks : list tick) :
  forall key,
    snd (capture_loop key ticks) = Val tt
    \/ (exists k, snd (capture_loop key ticks) = Await k /\ k <> key_q)
    \/ snd (capture_loop key ticks) = Undefined.
Proof.
  induction ticks as [| t rest IH]; intros key.
  - destruct (Z.eq_dec key key_q) as [-> | N].
    + left. reflexivity.
    + right. left. exists key. now rewrite capture_loop_nil.
  - destruct (Z.eq_dec key key_q) as [-> | N].
    + left. now rewrite capture_loop_quit.
    + destruct (t_frame t) eqn:F.
      * destruct (save_decision key t) as [[K Fit] | Fit].
        -- right. right. now rewrite capture_loop_overflow.
        -- rewrite capture_loop_cons by assumption. apply IH.
      * left. now rewrite capture_loop_break.
Qed.

Lemma save_events_capture (key : Z) (t : tick) :
  Forall (fun e => is_capture_event e = true) (save_events key t).
Proof.
  unfold save_events. destruct (key =? key_s); repeat constructor.
Qed.

Lemma capture_loop_events (ticks : list tick) :
  forall key,
    Forall (fun e => is_capture_event e = true) (fst (capture_loop key ticks)).
Proof.
  induction ticks as [| t rest IH]; intros key.
  - destruct (Z.eq_dec key key_q) as [-> | N].
    + constructor.
    + rewrite capture_loop_nil by assumption. constructor.
  - destruct (Z.eq_dec key key_q) as [-> | N].
    + rewrite capture_loop_quit. constructor.
    + destruct (t_frame t) eqn:F.
      * destruct (save_decision key t) as [[K Fit] | Fit].
        -- rewrite capture_loop_overflow by assumption. repeat constructor.
        -- rewrite capture_loop_cons by assumption. cbn [fst].
           do 2 (constructor; [reflexivity |]).
           apply Forall_app. split; [apply save_events_capture |].
           constructor; [reflexivity | apply IH].
      * rewrite capture_loop_break by assumption. repeat constructor.
Qed.

(** ** The file-reading loop terminates *)

Lemma fgets_chars_rest (n : nat) :
  forall s, (String.length (snd (fgets_chars n s)) <= String.length s)%nat.
Proof.
  induction n as [| n IH]; intros s.
  - simpl. lia.
  - destruct s as [| c s]; simpl; [lia |].
    destruct (Ascii.eqb c "010"); simpl; [lia |].
    specialize (IH s). destruct (fgets_chars n s) as [l r]. simpl in *. lia.
Qed.

Lemma fgets_chars_progress (n : nat) (c : ascii) (s : string) :
  (String.length (snd (fgets_chars (S n) (String c s))) <= String.length s)%nat.
Proof.
  simpl. destruct (Ascii.eqb c "010"); simpl; [lia |].
  pose proof (fgets_chars_rest n s) as H.
  destruct (fgets_chars n s) as [l r]. exact H.
Qed.

Lemma print_lines_total (fuel : nat) :
  forall content,
    (String.length content <= fuel)%nat ->
    exists evs,
      print_lines fuel content = (evs, Val tt)
      /\ Forall (fun e => is_printf e = true) evs.
Proof.
  induction fuel as [| fuel IH]; intros content L.
  - destruct content; [| simpl in L; lia].
    exists []. split; [reflexivity | constructor].
  - destruct content as [| c s].
    + exists []. split; [reflexivity | constructor].
    + pose proof (fgets_chars_progress 98 c s) as P.
      cbn [print_lines fgets].
      change (Z.to_nat (sizeof_line - 1)) with 99%nat.
      destruct (fgets_chars 99 (String c s)) as [line rest].
      cbn [snd] in P. simpl in L.
      destruct (IH rest ltac:(lia)) as [evs [E F]].
      exists (EPrintf (c_str line) :: evs). split.
      * unfold printf. rewrite bind_emit, E. reflexivity.
      * constructor; [reflexivity | assumption].
Qed.

Lemma print_lines_run (content : string) :
  print_lines (String.length content) content = (line_events content, Val tt).
Proof.
  unfold line_events.
  destruct (print_lines_total (String.length content) content (le_n _))
    as [evs [E _]].
  now rewrite E.
Qed.

Lemma line_events_printf (content : string) :
  Forall (fun e => is_printf e = true) (line_events content).
Proof.
  unfold line_events.
  destruct (print_lines_total (String.length content) content (le_n _))
    as [evs [E F]].
  now rewrite E.
Qed.

(** ** What follows the loop, one equation per outcome *)

Lemma after_loop_missing (w : world) :
  w_result w = None ->
  after_loop w
  = ([ECapRelease; EDestroyAllWindows; ESystem detector_command;
      EFopen result_filename "r" false;
      EPrintf ("Cannot open file." ++ nl)%string],
     Return 1).
Proof. intros R. unfold after_loop, read_result. rewrite R. reflexivity. Qed.

Lemma after_loop_gpio_failed (w : world) (content : string) :
  w_result w = Some content -> w_gpio w = -1 ->
  after_loop w
  = (read_events content
       ++ [EWiringPiSetupGpio;
           EPrintf "failed to WiringPi library initialization"],
     Return (-1)).
Proof.
  intros R G. unfold after_loop, read_result, buzzer, read_events.
  rewrite R, G, print_lines_run.
  generalize (line_events content) as l. intros l.
  cbn. rewrite <- !app_assoc. reflexivity.
Qed.

Lemma after_loop_pulse (w : world) (content : string) :
  w_result w = Some content -> w_gpio w <> -1 ->
  after_loop w
  = (read_events content ++ EWiringPiSetupGpio :: pulse, Return 0).
Proof.
  intros R G. unfold after_loop, read_result, buzzer, read_events.
  apply Z.eqb_neq in G.
  rewrite R, G, print_lines_run.
  generalize (line_events content) as l. intros l.
  cbn. rewrite <- !app_assoc. reflexivity.
Qed.

(** What follows the loop always ends in a [return]. *)
Lemma after_loop_returns (w : world) :
  exists evs c, after_loop w = (evs, Return c).
Proof.
  destruct (w_result w) as [content |] eqn:R.
  - destruct (Z.eq_dec (w_gpio w) (-1)) as [G | G].
    + eexists _, _. now apply after_loop_gpio_failed with (content := content).
    + eexists _, _. now apply after_loop_pulse with (content := content).
  - eexists _, _. now apply after_loop_missing.
Qed.

(** ** The runs of [main] *)

Lemma main_no_camera (w : world) :
  w_camera w = false ->
  main w
  = ([EVideoCapture 0 false; EPrintf ("Cannot open camera." ++ nl)%string;
      ECapDestructor],
     Return (-1)).
Proof. intros C. unfold main, main_body, open_camera. rewrite C. reflexivity. Qed.

Lemma main_no_frame (w : world) :
  w_camera w = true -> w_frame0 w = false ->
  main w
  = ([EVideoCapture 0 true; ECapRead;
      EPrintf ("Cannot read frame." ++ nl)%string; ECapDestructor],
     Return (-1)).
Proof.
  intros C F. unfold main, main_body, open_camera, first_frame.
  rewrite C, F. reflexivity.
Qed.

Lemma preamble_run (w : world) (k : Z -> M unit) :
  w_camera w = true -> w_frame0 w = true ->
  (open_camera w ;; key <- first_frame w ;; k key)
  = bind (preamble, Val tt) (fun _ => k (char_of_int (w_key0 w))).
Proof.
  intros C F. unfold open_camera, first_frame.
  rewrite C, F. cbn [negb when].
  destruct (k (char_of_int (w_key0 w))) as [evs r] eqn:E.
  cbn. rewrite E. reflexivity.
Qed.

Lemma main_body_loop (w : world) :
  w_camera w = true -> w_frame0 w = true ->
  main_body w
  = bind (preamble, Val tt)
      (fun _ => capture_loop (char_of_int (w_key0 w)) (w_ticks w) ;; after_loop w).
Proof.
  intros C F. unfold main_body.
  exact (preamble_run w (fun key => capture_loop key (w_ticks w) ;; after_loop w) C F).
Qed.

Lemma main_previewing (w : world) (levs : list event) (k : Z) :
  w_camera w = true -> w_frame0 w = true ->
  capture_loop (char_of_int (w_key0 w)) (w_ticks w) = (levs, Await k) ->
  main w = (preamble ++ levs, Await k).
Proof.
  intros C F L. unfold main. rewrite main_body_loop by assumption.
  rewrite L. reflexivity.
Qed.

Lemma main_undefined (w : world) (levs : list event) :
  w_camera w = true -> w_frame0 w = true ->
  capture_loop (char_of_int (w_key0 w)) (w_ticks w) = (levs, Undefined) ->
  main w = (preamble ++ levs, Undefined).
Proof.
  intros C F L. unfold main. rewrite main_body_loop by assumption.
  rewrite L. reflexivity.
Qed.

Lemma main_left_loop (w : world) (levs aevs : list event) (c : Z) :
  w_camera w = true -> w_frame0 w = true ->
  capture_loop (char_of_int (w_key0 w)) (w_ticks w) = (levs, Val tt) ->
  after_loop w = (aevs, Return c) ->
  main w = (preamble ++ levs ++ aevs ++ [ECapDestructor], Return c).
Proof.
  intros C F L A. unfold main. rewrite main_body_loop by assumption.
  rewrite L. cbn [bind]. rewrite A. cbn [bind].
  rewrite <- !app_assoc. reflexivity.
Qed.

(** A run that returns after the first frame was read has left the loop and
    gone through [after_loop]. *)
Lemma main_returned_inv (w : world) (evs : list event) (c : Z) :
  main w = (evs, Return c) ->
  w_camera w = true -> w_frame0 w = true ->
  exists levs aevs,
    capture_loop (char_of_int (w_key0 w)) (w_ticks w) = (levs, Val tt)
    /\ after_loop w = (aevs, Return c)
    /\ evs = preamble ++ levs ++ aevs ++ [ECapDestructor].
Proof.
  intros M C F.
  destruct (capture_loop (char_of_int (w_key0 w)) (w_ticks w)) as [levs r] eqn:L.
  pose proof (capture_loop_outcome (w_ticks w) (char_of_int (w_key0 w))) as O.
  rewrite L in O. cbn [snd] in O. destruct O as [-> | [[k [-> _]] | ->]].
  - destruct (after_loop_returns w) as [aevs [c' A]].
    rewrite (main_left_loop w levs aevs c' C F L A) in M. injection M as <- <-.
    exists levs, aevs. auto.
  - rewrite (main_previewing w levs k C F L) in M. discriminate.
  - rewrite (main_undefined w levs C F L) in M. discriminate.
Qed.

(** [main] never runs out of fuel: it returns, or is still previewing, or a
    save has overflowed [filename]. *)
Lemma main_total (w : world) :
  exists evs,
    (exists c, main w = (evs, Return c))
    \/ (exists k, main w = (evs, Await k))
    \/ main w = (evs, Undefined).
Proof.
  destruct (w_camera w) eqn:C; [| eexists; left; eexists; now apply main_no_camera].
  destruct (w_frame0 w) eqn:F; [| eexists; left; eexists; now apply main_no_frame].
  destruct (capture_loop (char_of_int (w_key0 w)) (w_ticks w)) as [levs r] eqn:L.
  pose proof (capture_loop_outcome (w_ticks w) (char_of_int (w_key0 w))) as O.
  rewrite L in O. cbn [snd] in O. destruct O as [-> | [[k [-> _]] | ->]].
  - destruct (after_loop_returns w) as [aevs [c A]].
    eexists. left. exists c. eapply main_left_loop; eassumption.
  - eexists. right. left. exists k. eapply main_previewing; eassumption.
  - eexists. right. right. eapply main_undefined; eassumption.
Qed.

(** ** Counting events in a trace *)

Lemma filter_none (p q : event -> bool) (l : list event) :
  (forall e, q e = true -> p e = false) ->
  Forall (fun e => q e = true) l -> filter p l = [].
Proof.
  intros PQ F. induction F as [| e l Q _ IH]; [reflexivity |].
  simpl. now rewrite (PQ e Q).
Qed.

Lemma saved_files_app (l1 l2 : list event) :
  saved_files (l1 ++ l2) = saved_files l1 ++ saved_files l2.
Proof.
  induction l1 as [| e l1 IH]; [reflexivity |].
  destruct e; simpl; now rewrite ?IH.
Qed.

Lemma held_after_app (l1 l2 : list event) :
  held_after (l1 ++ l2) = fold_left track l2 (held_after l1).
Proof. unfold held_after. apply fold_left_app. Qed.

(** ** File names *)

Lemma length_append (a b : string) :
  String.length (a ++ b) = (String.length a + String.length b)%nat.
Proof. induction a as [| c a IH]; simpl; [reflexivity | now rewrite IH]. Qed.

Lemma append_inj_l (p a b : string) : (p ++ a = p ++ b)%string -> a = b.
Proof.
  induction p as [| c p IH]; simpl; intros H; [assumption |].
  injection H as H. auto.
Qed.

Lemma append_inj_r (a : string) :
  forall b c, (a ++ c = b ++ c)%string -> a = b.
Proof.
  induction a as [| x a IH]; intros [| y b] c H.
  - reflexivity.
  - apply (f_equal String.length) in H. simpl in H.
    rewrite length_append in H. lia.
  - apply (f_equal String.length) in H. simpl in H.
    rewrite length_append in H. lia.
  - simpl in H. injection H as -> H. f_equal. eauto.
Qed.

Lemma string_of_Z_inj (a b : Z) : string_of_Z a = string_of_Z b -> a = b.
Proof.
  unfold string_of_Z. intros H.
  apply (f_equal NilEmpty.int_of_string) in H.
  rewrite !NilEmpty.isi in H. injection H as H.
  apply (f_equal Z.of_int) in H. now rewrite !DecimalZ.of_to in H.
Qed.

(** Two file names are the same exactly when the clock, read as an [int],
    showed the same second. *)
Lemma image_filename_inj (t1 t2 : Z) :
  image_filename t1 = image_filename t2 <-> int_of_time t1 = int_of_time t2.
Proof.
  unfold image_filename. split; [| now intros ->].
  intros H. apply append_inj_l in H.
  apply append_inj_r in H. now apply string_of_Z_inj.
Qed.

Lemma image_filename_1 (t : Z) :
  image_filename t = "image1.jpg"%string <-> int_of_time t = 1.
Proof.
  change "image1.jpg"%string with (image_filename 1).
  rewrite image_filename_inj. reflexivity.
Qed.

Lemma detector_invocation_inj (a b : string) :
  detector_invocation a = detector_invocation b -> a = b.
Proof.
  unfold detector_invocation. intros H.
  apply append_inj_l in H. now apply append_inj_r in H.
Qed.

(** The literals of lines 54 and 61 in the vocabulary above. *)
Lemma detector_command_source :
  detector_command = detector_invocation "image1.jpg".
Proof. reflexivity. Qed.

Lemma result_filename_derived : result_filename = result_path "image1.jpg".
Proof. reflexivity. Qed.

(** ** Traces of the runs that leave the loop *)

(** Events of the capture loop are none of the later stages' events. *)
Lemma capture_filter_nil (p : event -> bool) (key : Z) (ticks : list tick) :
  (forall e, is_capture_event e = true -> p e = false) ->
  filter p (fst (capture_loop key ticks)) = [].
Proof.
  intros H. apply filter_none with (q := is_capture_event); [exact H |].
  apply capture_loop_events.
Qed.

Lemma line_filter_nil (p : event -> bool) (content : string) :
  (forall e, is_printf e = true -> p e = false) ->
  filter p (line_events content) = [].
Proof.
  intros H. apply filter_none with (q := is_printf); [exact H |].
  apply line_events_printf.
Qed.

(** Discharges [forall e, q e = true -> p e = false] for two classifiers. *)
Ltac disjoint_kinds := intros [] ; simpl; intros; congruence.

(** Normalises [filter p] over a trace of a returned run. *)
Ltac filter_trace :=
  unfold pin_writes, count, read_events;
  rewrite ?filter_app;
  rewrite ?capture_filter_nil by disjoint_kinds;
  rewrite ?line_filter_nil by disjoint_kinds.

(** The three ways a run returns once the loop is left. *)
Lemma main_returned_cases (w : world) (evs : list event) (c : Z) :
  main w = (evs, Return c) ->
  w_camera w = true -> w_frame0 w = true ->
  let levs := fst (capture_loop (char_of_int (w_key0 w)) (w_ticks w)) in
  (w_result w = None /\ c = 1
   /\ evs = preamble ++ levs
        ++ [ECapRelease; EDestroyAllWindows; ESystem detector_command;
            EFopen result_filename "r" false;
            EPrintf ("Cannot open file." ++ nl)%string]
        ++ [ECapDestructor])
  \/ (exists content, w_result w = Some content /\ w_gpio w = -1 /\ c = -1
      /\ evs = preamble ++ levs
           ++ (read_events content
                 ++ [EWiringPiSetupGpio;
                     EPrintf "failed to WiringPi library initialization"])
           ++ [ECapDestructor])
  \/ (exists content, w_result w = Some content /\ w_gpio w <> -1 /\ c = 0
      /\ evs = preamble ++ levs
           ++ (read_events content ++ EWiringPiSetupGpio :: pulse)
           ++ [ECapDestructor]).
Proof.
  intros M C F levs.
  destruct (main_returned_inv w evs c M C F) as [levs' [aevs [L [A ->]]]].
  assert (levs = levs') as <- by (unfold levs; now rewrite L).
  destruct (w_result w) as [content |] eqn:R.
  - destruct (Z.eq_dec (w_gpio w) (-1)) as [G | G].
    + rewrite (after_loop_gpio_failed w content R G) in A.
      injection A as <- <-. right. left. exists content. auto.
    + rewrite (after_loop_pulse w content R G) in A.
      injection A as <- <-. right. right. exists content. auto.
  - rewrite (after_loop_missing w R) in A. injection A as <- <-. left. auto.
Qed.

(** [main] reads every field of the environment but the detector's status. *)
Lemma main_ext (w w' : world) :
  w_camera w = w_camera w' -> w_frame0 w = w_frame0 w' ->
  w_key0 w = w_key0 w' -> w_ticks w = w_ticks w' ->
  w_result w = w_result w' -> w_gpio w = w_gpio w' ->
  main w = main w'.
Proof.
  intros C F K T R G.
  unfold main, main_body, open_camera, first_frame, after_loop, run_detector,
    read_result, buzzer.
  rewrite C, F, K, T, R, G. reflexivity.
Qed.

Lemma main_set_detector (w : world) (status : Z) :
  main (set_detector w status) = main w.
Proof. apply main_ext; reflexivity. Qed.

(** ** The buzzer stage *)

(** A run that returns 0 has pulsed the buzzer once, whatever image1.txt
    held: the test of line 85 is on the size of the buffer. *)
Lemma returned_zero_pulsed (w : world) (evs : list event) :
  main w = (evs, Return 0) ->
  filter is_pin_event evs = pulse.
Proof.
  intros M.
  destruct (w_camera w) eqn:C;
    [| rewrite (main_no_camera w C) in M; discriminate].
  destruct (w_frame0 w) eqn:F;
    [| rewrite (main_no_frame w C F) in M; discriminate].
  destruct (main_returned_cases w evs 0 M C F)
    as [[_ [E _]] | [[content [_ [_ [E _]]]] | [content [_ [_ [_ ->]]]]]];
    try discriminate.
  filter_trace. reflexivity.
Qed.

(** C1: [AlertDriver.fire] pulses once when [hasDetection] is true and
    writes nothing when it is false.  The code fails the second half: on an
    empty image1.txt, where the specification's [hasDetection] is false, the
    run still sets pin 32 HIGH for 500 ms and LOW for 500 ms. *)
Theorem pulse_without_detection :
  spec_hasDetection EmptyString = false
  /\ w_result w_empty_result = Some EmptyString
  /\ main w_empty_result
     = (preamble
          ++ [ECapRelease; EDestroyAllWindows; ESystem detector_command;
              EFopen result_filename "r" true; EFclose; EWiringPiSetupGpio;
              EPinMode BUZZER_PIN OUTPUT;
              EDigitalWrite BUZZER_PIN HIGH; EDelay 500;
              EDigitalWrite BUZZER_PIN LOW; EDelay 500;
              ECapDestructor],
        Return 0)
  /\ pin_writes (fst (main w_empty_result))
     = [EDigitalWrite 32 HIGH; EDigitalWrite 32 LOW].
Proof. repeat split. Qed.

(** C2: two saves of one session get different file names, also within the
    same second.  The code names the file after [time(NULL)]: with ['s']
    pending over two iterations of the same second both frames are written
    to image1700000000.jpg. *)
Theorem same_second_saves_collide :
  saved_files (fst (main w_two_saves))
  = ["image1700000000.jpg"; "image1700000000.jpg"]%string
  /\ ~ NoDup (saved_files (fst (main w_two_saves))).
Proof.
  split; [reflexivity |].
  intros N. inversion N as [| f l NI _ E]; subst. apply NI. now left.
Qed.

(** C3, as stated, fails: the detector exits with status 1, and the run
    still opens image1.txt, prints it and pulses the buzzer. *)
Lemma failed_detector_still_read :
  w_detector w_detector_failed <> 0
  /\ In (EFopen result_filename "r" true) (fst (main w_detector_failed))
  /\ In (EPrintf detection_line) (fst (main w_detector_failed))
  /\ pin_writes (fst (main w_detector_failed))
     = [EDigitalWrite 32 HIGH; EDigitalWrite 32 LOW].
Proof.
  split; [discriminate |]. split; [| split]; [| | reflexivity].
  - vm_compute. tauto.
  - vm_compute. tauto.
Qed.

(** C3, amended: the exit status of the detector is not looked at.  A run
    that leaves the loop is the same run for every status, and in it the
    call of [system] is directly followed by the [fopen] of image1.txt.  If
    the file opens, its lines are printed and it is closed; if not, nothing
    is read or closed.  The buzzer pin is written, HIGH then LOW, exactly
    when the file opened and [wiringPiSetupGpio] did not return -1. *)
Theorem detector_status_ignored (w : world) (status : Z)
    (evs : list event) (c : Z) :
  main w = (evs, Return c) ->
  w_camera w = true -> w_frame0 w = true ->
  main (set_detector w status) = (evs, Return c)
  /\ (exists pre post,
        evs = pre
              ++ [ESystem detector_command;
                  EFopen result_filename "r"
                    (match w_result w with Some _ => true | None => false end)]
              ++ post)
  /\ match w_result w with
     | Some content =>
         exists pre post,
           evs = pre ++ EFopen result_filename "r" true
                          :: line_events content ++ EFclose :: post
     | None => ~ In EFclose evs
     end
  /\ pin_writes evs
     = match w_result w with
       | Some _ =>
           if w_gpio w =? -1 then []
           else [EDigitalWrite BUZZER_PIN HIGH; EDigitalWrite BUZZER_PIN LOW]
       | None => []
       end.
Proof.
  intros M C F. split; [now rewrite main_set_detector |].
  set (levs := fst (capture_loop (char_of_int (w_key0 w)) (w_ticks w))).
  destruct (main_returned_cases w evs c M C F)
    as [[R [_ ->]] | [[content [R [G [_ ->]]]] | [content [R [G [_ ->]]]]]];
    rewrite R; fold levs.
  - split; [| split].
    + exists (preamble ++ levs ++ [ECapRelease; EDestroyAllWindows]).
      exists [EPrintf ("Cannot open file." ++ nl)%string; ECapDestructor].
      rewrite <- !app_assoc. reflexivity.
    + intros I.
      assert (I' : In EFclose
                     (filter is_fclose
                        (preamble ++ levs
                           ++ [ECapRelease; EDestroyAllWindows;
                               ESystem detector_command;
                               EFopen result_filename "r" false;
                               EPrintf ("Cannot open file." ++ nl)%string]
                           ++ [ECapDestructor])))
        by (apply filter_In; split; [exact I | reflexivity]).
      revert I'. unfold levs. filter_trace. intros [].
    + unfold levs. filter_trace. reflexivity.
  - split; [| split].
    + exists (preamble ++ levs ++ [ECapRelease; EDestroyAllWindows]).
      exists (line_events content
                ++ [EFclose; EWiringPiSetupGpio;
                    EPrintf "failed to WiringPi library initialization";
                    ECapDestructor]).
      unfold read_events. rewrite <- !app_assoc. reflexivity.
    + exists (preamble ++ levs
                ++ [ECapRelease; EDestroyAllWindows; ESystem detector_command]).
      exists [EWiringPiSetupGpio;
              EPrintf "failed to WiringPi library initialization";
              ECapDestructor].
      unfold read_events. rewrite <- !app_assoc. reflexivity.
    + rewrite G. unfold levs. filter_trace. reflexivity.
  - split; [| split].
    + exists (preamble ++ levs ++ [ECapRelease; EDestroyAllWindows]).
      exists (line_events content
                ++ EFclose :: EWiringPiSetupGpio :: pulse ++ [ECapDestructor]).
      unfold read_events. rewrite <- !app_assoc. reflexivity.
    + exists (preamble ++ levs
                ++ [ECapRelease; EDestroyAllWindows; ESystem detector_command]).
      exists (EWiringPiSetupGpio :: pulse ++ [ECapDestructor]).
      unfold read_events. rewrite <- !app_assoc. reflexivity.
    + apply Z.eqb_neq in G. rewrite G. unfold levs. filter_trace. reflexivity.
Qed.

Lemma detector_status_ignored_witness :
  main w_detector_failed
  = (preamble
       ++ [ECapRelease; EDestroyAllWindows; ESystem detector_command;
           EFopen result_filename "r" true; EPrintf detection_line; EFclose;
           EWiringPiSetupGpio] ++ pulse ++ [ECapDestructor],
     Return 0)
  /\ main (set_detector w_detector_failed 0) = main w_detector_failed.
Proof.
  split; [reflexivity |].
  destruct (detector_status_ignored w_detector_failed 0 _ 0
              eq_refl eq_refl eq_refl) as [E _].
  exact E.
Defined.

(** C4: reading an empty image1.txt succeeds with [hasDetection] false, so
    that no pulse follows.  The code does read the empty file without error
    (nothing is printed, the file is closed, [main] returns 0), but the test
    it makes, [sizeof(line) > 1], is true all the same and the pulse
    follows. *)
Theorem empty_result_file_pulses :
  w_result w_save_empty_result = Some EmptyString
  /\ snd (main w_save_empty_result) = Return 0
  /\ line_events EmptyString = []
  /\ held_after (fst (main w_save_empty_result)) = no_resources
  /\ spec_hasDetection EmptyString = false
  /\ code_detection = true
  /\ filter is_pin_event (fst (main w_save_empty_result)) = pulse.
Proof. repeat split. Qed.

(** C5: when image1.txt cannot be opened the run reports it and returns 1,
    a status no other exit has, without entering the buzzer stage.  A run
    returns 1 exactly when the camera and first frame were fine and [fopen]
    returned [NULL]; the trace then ends with the failed [fopen] and the
    message, and holds no call into the GPIO layer. *)
Theorem missing_result_file (w : world) (evs : list event) (c : Z) :
  main w = (evs, Return c) ->
  (c = 1 <-> w_camera w = true /\ w_frame0 w = true /\ w_result w = None)
  /\ (c = 1 ->
      (exists pre,
          evs = pre ++ [EFopen result_filename "r" false;
                        EPrintf ("Cannot open file." ++ nl)%string;
                        ECapDestructor])
      /\ filter is_gpio_setup evs = []
      /\ filter is_pin_event evs = []).
Proof.
  intros M.
  destruct (w_camera w) eqn:C.
  2:{ rewrite (main_no_camera w C) in M. injection M as <- <-.
      split; [split; [discriminate | intros [? _]; discriminate] | discriminate]. }
  destruct (w_frame0 w) eqn:F.
  2:{ rewrite (main_no_frame w C F) in M. injection M as <- <-.
      split; [split; [discriminate | intros [_ [? _]]; discriminate] | discriminate]. }
  set (levs := fst (capture_loop (char_of_int (w_key0 w)) (w_ticks w))).
  destruct (main_returned_cases w evs c M C F)
    as [[R [-> ->]] | [[content [R [_ [-> _]]]] | [content [R [_ [-> _]]]]]].
  - fold levs. split; [tauto |]. intros _. split; [| split].
    + exists (preamble ++ levs
                ++ [ECapRelease; EDestroyAllWindows; ESystem detector_command]).
      rewrite <- !app_assoc. reflexivity.
    + unfold levs. filter_trace. reflexivity.
    + unfold levs. filter_trace. reflexivity.
  - rewrite R.
    split; [split; [discriminate | intros [_ [_ ?]]; discriminate] | discriminate].
  - rewrite R.
    split; [split; [discriminate | intros [_ [_ ?]]; discriminate] | discriminate].
Qed.

Lemma missing_result_file_witness :
  main w_missing_result
  = (preamble
       ++ [ECapRead; EImshow "Camera"; EImwrite "image1700000000.jpg";
           EPrintf ("image saved: image1700000000.jpg" ++ nl)%string;
           EWaitKey 1;
           ECapRelease; EDestroyAllWindows; ESystem detector_command;
           EFopen result_filename "r" false;
           EPrintf ("Cannot open file." ++ nl)%string; ECapDestructor],
     Return 1)
  /\ (w_camera w_missing_result = true /\ w_frame0 w_missing_result = true
      /\ w_result w_missing_result = None)
  /\ filter is_pin_event (fst (main w_missing_result)) = [].
Proof.
  split; [reflexivity |].
  destruct (missing_result_file w_missing_result _ 1 eq_refl) as [[I _] P].
  split; [exact (I eq_refl) |].
  destruct (P eq_refl) as [_ [_ N]]. exact N.
Defined.

(** C6, as stated, fails: the frame saved at second 1700000000 goes to
    image1700000000.jpg; the detector is not run on that file and no result
    is read from image1700000000.txt. *)
Lemma saved_image_not_detector_source :
  In "image1700000000.jpg"%string (saved_files (fst (main w_save_empty_result)))
  /\ ~ In (ESystem (detector_invocation "image1700000000.jpg"))
          (fst (main w_save_empty_result))
  /\ result_path "image1700000000.jpg" = "image1700000000.txt"%string
  /\ ~ In (EFopen (result_path "image1700000000.jpg") "r" true)
          (fst (main w_save_empty_result))
  /\ filter is_system (fst (main w_save_empty_result))
     = [ESystem (detector_invocation "image1.jpg")]
  /\ filter is_fopen (fst (main w_save_empty_result))
     = [EFopen (result_path "image1.jpg") "r" true].
Proof.
  split; [now left |].
  split; [| split; [reflexivity | split; [| split; reflexivity]]].
  - vm_compute. intros H.
    repeat (destruct H as [H | H]; [discriminate H |]). exact H.
  - vm_compute. intros H.
    repeat (destruct H as [H | H]; [discriminate H |]). exact H.
Qed.

(** A run that leaves the loop calls [system] once, with the literal of
    line 54. *)
Lemma detector_invoked_once (w : world) (evs : list event) (c : Z) :
  main w = (evs, Return c) ->
  w_camera w = true -> w_frame0 w = true ->
  filter is_system evs = [ESystem detector_command].
Proof.
  intros M C F.
  destruct (main_returned_cases w evs c M C F)
    as [[R [_ ->]] | [[content [R [_ [_ ->]]]] | [content [R [_ [_ ->]]]]]];
    filter_trace; reflexivity.
Qed.

(** The frame saved at clock value [t] is the detector's source only when
    [t], read as an [int], is 1. *)
Lemma saved_image_detected_only_at_1 (w : world) (evs : list event) (c : Z)
    (t : Z) :
  main w = (evs, Return c) ->
  w_camera w = true -> w_frame0 w = true ->
  In (ESystem (detector_invocation (image_filename t))) evs ->
  int_of_time t = 1.
Proof.
  intros M C F I.
  assert (I' : In (ESystem (detector_invocation (image_filename t)))
                 (filter is_system evs))
    by (apply filter_In; split; [exact I | reflexivity]).
  rewrite (detector_invoked_once w evs c M C F) in I'. destruct I' as [E | []].
  apply (f_equal (fun e => match e with ESystem cmd => cmd | _ => EmptyString end))
    in E.
  change (detector_invocation "image1.jpg"
          = detector_invocation (image_filename t)) in E.
  apply detector_invocation_inj in E.
  symmetry in E. now apply image_filename_1.
Qed.

(** C6, amended: a run that leaves the loop invokes the detector once, with
    the fixed path image1.jpg as its source, and then opens image1.txt, the
    path derived from that source's base name with the extension [.txt],
    whichever frames were saved. *)
Theorem detector_runs_on_fixed_image (w : world) (evs : list event) (c : Z) :
  main w = (evs, Return c) ->
  w_camera w = true -> w_frame0 w = true ->
  filter is_system evs = [ESystem (detector_invocation "image1.jpg")]
  /\ filter is_fopen evs
     = [EFopen (result_path "image1.jpg") "r"
          (match w_result w with Some _ => true | None => false end)]
  /\ exists pre post,
       evs = pre ++ [ESystem (detector_invocation "image1.jpg");
                     EFopen (result_path "image1.jpg") "r"
                       (match w_result w with Some _ => true | None => false end)]
                 ++ post.
Proof.
  intros M C F.
  split; [exact (detector_invoked_once w evs c M C F) |].
  set (levs := fst (capture_loop (char_of_int (w_key0 w)) (w_ticks w))).
  destruct (main_returned_cases w evs c M C F)
    as [[R [_ ->]] | [[content [R [_ [_ ->]]]] | [content [R [_ [_ ->]]]]]];
    rewrite R; (split; [filter_trace; reflexivity |]); fold levs;
    exists (preamble ++ levs ++ [ECapRelease; EDestroyAllWindows]).
  - exists [EPrintf ("Cannot open file." ++ nl)%string; ECapDestructor].
    rewrite <- !app_assoc. reflexivity.
  - exists (line_events content
              ++ [EFclose; EWiringPiSetupGpio;
                  EPrintf "failed to WiringPi library initialization";
                  ECapDestructor]).
    unfold read_events. rewrite <- !app_assoc. reflexivity.
  - exists (line_events content
              ++ EFclose :: EWiringPiSetupGpio :: pulse ++ [ECapDestructor]).
    unfold read_events. rewrite <- !app_assoc. reflexivity.
Qed.

Lemma detector_runs_on_fixed_image_witness :
  saved_files (fst (main w_save_empty_result)) = ["image1700000000.jpg"%string]
  /\ filter is_system (fst (main w_save_empty_result))
     = [ESystem (detector_invocation "image1.jpg")]
  /\ filter is_fopen (fst (main w_save_empty_result))
     = [EFopen (result_path "image1.jpg") "r" true].
Proof.
  split; [reflexivity |].
  destruct (detector_runs_on_fixed_image w_save_empty_result _ 0
              eq_refl eq_refl eq_refl) as [S [O _]].
  split; [exact S | exact O].
Defined.

(** ** Resources along a run *)

Lemma track_capture (r : resources) (e : event) :
  is_capture_event e = true -> preview_open r = true -> track r e = r.
Proof.
  destruct r as [cam win file]. simpl. intros E ->.
  destruct e; simpl in *; try reflexivity; discriminate.
Qed.

Lemma fold_track_capture (l : list event) (r : resources) :
  Forall (fun e => is_capture_event e = true) l ->
  preview_open r = true -> fold_left track l r = r.
Proof.
  intros F P. induction F as [| e l E _ IH]; [reflexivity |].
  simpl. now rewrite (track_capture r e E P).
Qed.

Lemma fold_track_printf (l : list event) (r : resources) :
  Forall (fun e => is_printf e = true) l -> fold_left track l r = r.
Proof.
  intros F. induction F as [| e l E _ IH]; [reflexivity |].
  destruct e; try discriminate. exact IH.
Qed.

(** At the end of the loop the camera and the window are held, no file. *)
Lemma held_after_loop (key : Z) (ticks : list tick) :
  held_after (preamble ++ fst (capture_loop key ticks))
  = mkResources true true false.
Proof.
  rewrite held_after_app.
  apply fold_track_capture; [apply capture_loop_events | reflexivity].
Qed.

(** C7: on every path on which [main] returns, the camera is released and the
    preview window closed by then (the result file too).  When the loop was
    entered, by ['q'] or by a failed read inside it, [cap.release()] and
    [cv::destroyAllWindows()] are the first two calls after the loop and no
    call on the camera or the window follows them.  When the first read
    fails, [main] returns before a window exists and the camera is released
    by the destructor of [cap]. *)
Theorem resources_released_on_exit (w : world) (evs : list event) (c : Z) :
  main w = (evs, Return c) ->
  camera_held (held_after evs) = false
  /\ preview_open (held_after evs) = false
  /\ file_open (held_after evs) = false
  /\ (w_camera w = true -> w_frame0 w = true ->
      exists post,
        evs = preamble ++ fst (capture_loop (char_of_int (w_key0 w)) (w_ticks w))
                ++ [ECapRelease; EDestroyAllWindows] ++ post
        /\ filter is_preview_event post = []).
Proof.
  intros M.
  destruct (w_camera w) eqn:C.
  2:{ rewrite (main_no_camera w C) in M. injection M as <- <-.
      split; [| split; [| split]]; try reflexivity. discriminate. }
  destruct (w_frame0 w) eqn:F.
  2:{ rewrite (main_no_frame w C F) in M. injection M as <- <-.
      split; [| split; [| split]]; try reflexivity. discriminate. }
  set (levs := fst (capture_loop (char_of_int (w_key0 w)) (w_ticks w))).
  assert (H : forall rest,
             evs = preamble ++ levs ++ rest ->
             held_after evs = fold_left track rest (mkResources true true false)).
  { intros rest ->. rewrite app_assoc, held_after_app.
    unfold levs. now rewrite held_after_loop. }
  assert (P : forall content r,
             fold_left track (line_events content) r = r)
    by (intros; apply fold_track_printf, line_events_printf).
  destruct (main_returned_cases w evs c M C F)
    as [[R [_ E]] | [[content [R [_ [_ E]]]] | [content [R [_ [_ E]]]]]];
    fold levs in E; rewrite (H _ E); unfold read_events, pulse;
    rewrite ?fold_left_app; cbn [fold_left track app];
    rewrite ?fold_left_app, ?P;
    (split; [reflexivity | split; [reflexivity | split; [reflexivity |]]]);
    intros _ _.
  - exists [ESystem detector_command; EFopen result_filename "r" false;
            EPrintf ("Cannot open file." ++ nl)%string; ECapDestructor].
    subst evs. split; [reflexivity | reflexivity].
  - exists ([ESystem detector_command; EFopen result_filename "r" true]
              ++ line_events content
              ++ [EFclose; EWiringPiSetupGpio;
                  EPrintf "failed to WiringPi library initialization";
                  ECapDestructor]).
    subst evs. split.
    + unfold read_events. rewrite <- !app_assoc. reflexivity.
    + rewrite !filter_app, line_filter_nil by disjoint_kinds. reflexivity.
  - exists ([ESystem detector_command; EFopen result_filename "r" true]
              ++ line_events content
              ++ EFclose :: EWiringPiSetupGpio :: pulse ++ [ECapDestructor]).
    subst evs. split.
    + unfold read_events. rewrite <- !app_assoc. reflexivity.
    + rewrite !filter_app, line_filter_nil by disjoint_kinds. reflexivity.
Qed.

Lemma resources_released_on_exit_witness :
  main w_no_first_frame
  = ([EVideoCapture 0 true; ECapRead;
      EPrintf ("Cannot read frame." ++ nl)%string; ECapDestructor],
     Return (-1))
  /\ camera_held (held_after (fst (main w_no_first_frame))) = false
  /\ preview_open (held_after (fst (main w_no_first_frame))) = false
  /\ exists post,
       fst (main w_read_fails)
       = preamble
           ++ [ECapRead; EImshow "Camera"; EImwrite "image1700000000.jpg";
               EPrintf ("image saved: image1700000000.jpg" ++ nl)%string;
               EWaitKey 1; ECapRead; EPrintf ("Cannot read frame." ++ nl)%string]
           ++ [ECapRelease; EDestroyAllWindows] ++ post
       /\ filter is_preview_event post = [].
Proof.
  split; [reflexivity |].
  destruct (resources_released_on_exit w_no_first_frame _ (-1) eq_refl)
    as [Cam [Win _]].
  split; [exact Cam |]. split; [exact Win |].
  destruct (resources_released_on_exit w_read_fails _ 0 eq_refl)
    as [_ [_ [_ P]]].
  exact (P eq_refl eq_refl).
Defined.

(** ** A session without ['q'] *)


Lemma saves_fit_cons (key : Z) (t : tick) (rest : list tick) :
  saves_fit key (t :: rest) = true ->
  (key = key_s -> filename_fits (t_time t) = true)
  /\ saves_fit (char_of_int (t_key t)) rest = true.
Proof.
  cbn [saves_fit]. intros H. apply andb_prop in H as [H1 H2].
  split; [| exact H2]. intros ->. exact H1.
Qed.





(** ** The buzzer stage when the GPIO layer cannot be set up *)

(** C9: when [wiringPiSetupGpio] returns -1 the failure is printed and
    [main] returns (with -1) without any call on the pin.  Everything before
    the call is what it is in the run where the set-up succeeds: the same
    frames saved, the same result lines printed, the camera released and the
    result file closed. *)
Theorem gpio_init_failure (w : world) (evs : list event) (c : Z)
    (content : string) :
  main w = (evs, Return c) ->
  w_camera w = true -> w_frame0 w = true ->
  w_result w = Some content -> w_gpio w = -1 ->
  c = -1
  /\ filter is_pin_event evs = []
  /\ exists pre,
       evs = pre ++ [EWiringPiSetupGpio;
                     EPrintf "failed to WiringPi library initialization";
                     ECapDestructor]
       /\ held_after pre = no_resources
       /\ forall g, g <> -1 ->
            main (set_gpio w g)
            = (pre ++ EWiringPiSetupGpio :: pulse ++ [ECapDestructor], Return 0).
Proof.
  intros M C F R G.
  set (levs := fst (capture_loop (char_of_int (w_key0 w)) (w_ticks w))).
  assert (L : capture_loop (char_of_int (w_key0 w)) (w_ticks w) = (levs, Val tt)).
  { destruct (main_returned_inv w evs c M C F) as [levs' [aevs [L _]]].
    unfold levs. now rewrite L. }
  destruct (main_returned_cases w evs c M C F)
    as [[R' _] | [[content' [R' [_ [-> ->]]]] | [content' [_ [G' _]]]]];
    [congruence | | congruence].
  assert (content' = content) as -> by congruence. fold levs.
  split; [reflexivity |]. split.
  - unfold levs. filter_trace. reflexivity.
  - exists (preamble ++ levs ++ read_events content).
    split; [rewrite <- !app_assoc; reflexivity |]. split.
    + rewrite app_assoc, held_after_app. unfold levs.
      rewrite held_after_loop. unfold read_events.
      rewrite !fold_left_app. cbn [fold_left track].
      rewrite fold_track_printf by apply line_events_printf. reflexivity.
    + intros g Ng.
      rewrite (main_left_loop (set_gpio w g) levs
                 (read_events content ++ EWiringPiSetupGpio :: pulse) 0
                 C F L (after_loop_pulse (set_gpio w g) content R Ng)).
      rewrite <- !app_assoc. reflexivity.
Qed.

Lemma gpio_init_failure_witness :
  main w_gpio_failed
  = (preamble
       ++ [ECapRead; EImshow "Camera"; EImwrite "image1700000000.jpg";
           EPrintf ("image saved: image1700000000.jpg" ++ nl)%string;
           EWaitKey 1;
           ECapRelease; EDestroyAllWindows; ESystem detector_command;
           EFopen result_filename "r" true; EPrintf detection_line; EFclose;
           EWiringPiSetupGpio;
           EPrintf "failed to WiringPi library initialization";
           ECapDestructor],
     Return (-1))
  /\ filter is_pin_event (fst (main w_gpio_failed)) = [].
Proof.
  split; [reflexivity |].
  destruct (gpio_init_failure w_gpio_failed _ (-1) detection_line
              eq_refl eq_refl eq_refl eq_refl eq_refl) as [_ [N _]].
  exact N.
Defined.

(** ** The stages after the loop *)

(** C10, as stated, fails: with ['q'] pressed at once and no image1.txt the
    detector is run and [fopen] is tried, but the buzzer stage is never
    entered; [main] returns 1. *)
Lemma no_buzzer_stage_without_result_file :
  snd (main w_nothing_saved_missing) = Return 1
  /\ saved_files (fst (main w_nothing_saved_missing)) = []
  /\ count is_system (fst (main w_nothing_saved_missing)) = 1%nat
  /\ count is_fopen (fst (main w_nothing_saved_missing)) = 1%nat
  /\ count is_gpio_setup (fst (main w_nothing_saved_missing)) = 0%nat
  /\ pin_writes (fst (main w_nothing_saved_missing)) = [].
Proof. repeat split. Qed.

(** C10, amended: once the loop is left, by ['q'] or by a failed read, the
    run calls the detector exactly once and tries to open image1.txt exactly
    once, whether or not a frame was saved.  The buzzer stage is entered,
    once, exactly when the file could be opened, and then pulses once unless
    [wiringPiSetupGpio] returns -1. *)
Theorem after_loop_stages_once (w : world) (evs : list event) (c : Z) :
  main w = (evs, Return c) ->
  w_camera w = true -> w_frame0 w = true ->
  count is_system evs = 1%nat
  /\ count is_fopen evs = 1%nat
  /\ count is_gpio_setup evs
     = (match w_result w with Some _ => 1 | None => 0 end)%nat
  /\ pin_writes evs
     = match w_result w with
       | Some _ =>
           if w_gpio w =? -1 then []
           else [EDigitalWrite BUZZER_PIN HIGH; EDigitalWrite BUZZER_PIN LOW]
       | None => []
       end.
Proof.
  intros M C F.
  destruct (main_returned_cases w evs c M C F)
    as [[R [_ ->]] | [[content [R [G [_ ->]]]] | [content [R [G [_ ->]]]]]];
    rewrite R; try rewrite G; try (apply Z.eqb_neq in G; rewrite G);
    filter_trace; repeat split.
Qed.

Lemma after_loop_stages_once_witness :
  saved_files (fst (main w_nothing_saved)) = []
  /\ count is_system (fst (main w_nothing_saved)) = 1%nat
  /\ count is_fopen (fst (main w_nothing_saved)) = 1%nat
  /\ count is_gpio_setup (fst (main w_nothing_saved)) = 1%nat
  /\ pin_writes (fst (main w_nothing_saved))
     = [EDigitalWrite BUZZER_PIN HIGH; EDigitalWrite BUZZER_PIN LOW].
Proof.
  split; [reflexivity |].
  exact (after_loop_stages_once w_nothing_saved _ 0 eq_refl eq_refl eq_refl).
Defined.

(** ** Further properties of [main] *)

Lemma after_loop_ext (w w' : world) :
  w_result w = w_result w' -> w_gpio w = w_gpio w' ->
  after_loop w = after_loop w'.
Proof.
  intros R G. unfold after_loop, run_detector, read_result, buzzer.
  rewrite R, G. reflexivity.
Qed.

(** The exit status tells how far the run got: [main] returns 0, 1 or -1, and
    0 exactly when camera, first frame, result file and GPIO set-up were all
    fine; only then has a pin been touched. *)
Theorem exit_status (w : world) (evs : list event) (c : Z) :
  main w = (evs, Return c) ->
  (c = 0 \/ c = 1 \/ c = -1)
  /\ (c = 0 <-> w_camera w = true /\ w_frame0 w = true
                /\ w_result w <> None /\ w_gpio w <> -1)
  /\ (c = 0 -> filter is_pin_event evs = pulse)
  /\ (c <> 0 -> filter is_pin_event evs = []).
Proof.
  intros M.
  destruct (w_camera w) eqn:C.
  2:{ rewrite (main_no_camera w C) in M. injection M as <- <-.
      split; [auto |]. split; [split; [discriminate | intros [? _]; discriminate] |].
      split; [discriminate | reflexivity]. }
  destruct (w_frame0 w) eqn:F.
  2:{ rewrite (main_no_frame w C F) in M. injection M as <- <-.
      split; [auto |].
      split; [split; [discriminate | intros [_ [? _]]; discriminate] |].
      split; [discriminate | reflexivity]. }
  destruct (main_returned_cases w evs c M C F)
    as [[R [-> ->]] | [[content [R [G [-> ->]]]] | [content [R [G [-> ->]]]]]];
    rewrite R.
  - split; [auto |].
    split; [split; [discriminate | intros [_ [_ [N _]]]; now destruct N] |].
    split; [discriminate | intros _; filter_trace; reflexivity].
  - split; [auto |].
    split; [split; [discriminate | intros [_ [_ [_ N]]]; now destruct N] |].
    split; [discriminate | intros _; filter_trace; reflexivity].
  - split; [auto |].
    split; [split; [intros _; repeat split; [discriminate | exact G] | reflexivity] |].
    split; [intros _; filter_trace; reflexivity | intros N; now destruct N].
Qed.

Lemma exit_status_witness :
  snd (main w_gpio_failed) = Return (-1)
  /\ filter is_pin_event (fst (main w_gpio_failed)) = [].
Proof.
  split; [reflexivity |].
  destruct (exit_status w_gpio_failed _ (-1) eq_refl) as [_ [_ [_ N]]].
  apply N. discriminate.
Defined.

(** While the session is running (the observed iterations are used up and
    [main] has not returned) the camera and the window are held, the pending
    key is not ['q'], and nothing but the calls of the preview loop has
    happened: no detector, no result file, no GPIO. *)
Theorem previewing_invariant (w : world) (evs : list event) (k : Z) :
  main w = (evs, Await k) ->
  w_camera w = true /\ w_frame0 w = true /\ k <> key_q
  /\ held_after evs = mkResources true true false
  /\ exists levs,
       evs = preamble ++ levs
       /\ Forall (fun e => is_capture_event e = true) levs.
Proof.
  intros M.
  destruct (w_camera w) eqn:C;
    [| rewrite (main_no_camera w C) in M; discriminate].
  destruct (w_frame0 w) eqn:F;
    [| rewrite (main_no_frame w C F) in M; discriminate].
  destruct (capture_loop (char_of_int (w_key0 w)) (w_ticks w)) as [levs r] eqn:L.
  pose proof (capture_loop_outcome (w_ticks w) (char_of_int (w_key0 w))) as O.
  pose proof (capture_loop_events (w_ticks w) (char_of_int (w_key0 w))) as E.
  pose proof (held_after_loop (char_of_int (w_key0 w)) (w_ticks w)) as H.
  rewrite L in O, E, H. cbn [fst snd] in O, E, H.
  destruct O as [-> | [[k' [-> N]] | ->]].
  - destruct (after_loop_returns w) as [aevs [c A]].
    rewrite (main_left_loop w levs aevs c C F L A) in M. discriminate.
  - rewrite (main_previewing w levs k' C F L) in M. injection M as <- <-.
    repeat split; try assumption. exists levs. auto.
  - rewrite (main_undefined w levs C F L) in M. discriminate.
Qed.

Lemma previewing_invariant_witness :
  held_after (fst (main w_no_quit)) = mkResources true true false
  /\ snd (main w_no_quit) = Await 255.
Proof.
  split; [| reflexivity].
  destruct (previewing_invariant w_no_quit _ 255 eq_refl) as [_ [_ [_ [H _]]]].
  exact H.
Defined.

(** ** The loop over a longer observation *)

Lemma capture_loop_continued (ticks more : list tick) :
  forall key,
    capture_loop key (ticks ++ more)
    = match capture_loop key ticks with
      | (evs, Await k) =>
          (evs ++ fst (capture_loop k more), snd (capture_loop k more))
      | r => r
      end.
Proof.
  induction ticks as [| t rest IH]; intros key.
  - destruct (Z.eq_dec key key_q) as [-> | N].
    + now rewrite !capture_loop_quit.
    + rewrite capture_loop_nil by assumption. cbn [app].
      now destruct (capture_loop key more).
  - destruct (Z.eq_dec key key_q) as [-> | N].
    + now rewrite !capture_loop_quit.
    + destruct (t_frame t) eqn:F.
      * destruct (save_decision key t) as [[K Fit] | Fit].
        -- cbn [app]. now rewrite !capture_loop_overflow.
        -- cbn [app]. rewrite !capture_loop_cons by assumption. rewrite IH.
           destruct (capture_loop (char_of_int (t_key t)) rest)
             as [evs [[] | c | k | | ]]; cbn [fst snd]; try reflexivity.
           f_equal. rewrite !app_comm_cons, <- app_assoc.
           rewrite <- !app_comm_cons. reflexivity.
      * cbn [app]. now rewrite !capture_loop_break.
Qed.

(** The loop over [ticks ++ more] is the loop over [ticks], continued over
    [more] with the pending key when it is still running; when the loop was
    left within [ticks], nothing of [more] is consumed. *)
Theorem capture_loop_app (ticks more : list tick) (key : Z) :
  capture_loop key (ticks ++ more)
  = match capture_loop key ticks with
    | (evs, Await k) =>
        (evs ++ fst (capture_loop k more), snd (capture_loop k more))
    | r => r
    end.
Proof. apply capture_loop_continued. Qed.

(** Once [main] has returned, keys and frames that come later change nothing:
    the run is the same for every continuation of the observation. *)
Theorem returned_run_ignores_later_input (w : world) (more : list tick)
    (evs : list event) (c : Z) :
  main w = (evs, Return c) ->
  main (set_ticks w (w_ticks w ++ more)) = (evs, Return c).
Proof.
  intros M.
  destruct (w_camera w) eqn:C.
  2:{ rewrite (main_no_camera w C) in M.
      now rewrite (main_no_camera (set_ticks w _) C). }
  destruct (w_frame0 w) eqn:F.
  2:{ rewrite (main_no_frame w C F) in M.
      now rewrite (main_no_frame (set_ticks w _) C F). }
  destruct (main_returned_inv w evs c M C F) as [levs [aevs [L [A ->]]]].
  apply (main_left_loop (set_ticks w (w_ticks w ++ more)) levs aevs c C F).
  - change (capture_loop (char_of_int (w_key0 w)) (w_ticks w ++ more)
            = (levs, Val tt)).
    now rewrite capture_loop_continued, L.
  - rewrite <- A. now apply after_loop_ext.
Qed.

Lemma returned_run_ignores_later_input_witness :
  main (set_ticks w_two_saves
          (w_ticks w_two_saves ++ [mkTick true some_second true key_s]))
  = main w_two_saves.
Proof.
  exact (returned_run_ignores_later_input w_two_saves
           [mkTick true some_second true key_s] _ 0 eq_refl).
Defined.

(** ** What the loop reads of its input *)

Lemma save_events_ext (key : Z) (t t' : tick) :
  t_time t = t_time t' -> t_imwrite t = t_imwrite t' ->
  save_events key t = save_events key t'.
Proof. intros T I. unfold save_events. now rewrite T, I. Qed.

Lemma capture_loop_same_chars (ticks ticks' : list tick) :
  Forall2 same_char_key ticks ticks' ->
  forall key, capture_loop key ticks = capture_loop key ticks'.
Proof.
  induction 1 as [| t t' rest rest' [Fr [T [I K]]] _ IH]; intros key;
    [reflexivity |].
  destruct (Z.eq_dec key key_q) as [-> | N].
  - now rewrite !capture_loop_quit.
  - destruct (t_frame t) eqn:F; symmetry in Fr.
    + destruct (save_decision key t) as [[Ks Fit] | Fit].
      * rewrite (capture_loop_overflow key t rest Ks F Fit).
        rewrite T in Fit.
        now rewrite (capture_loop_overflow key t' rest' Ks Fr Fit).
      * rewrite (capture_loop_cons key t rest N F Fit).
        rewrite T in Fit.
        rewrite (capture_loop_cons key t' rest' N Fr Fit).
        now rewrite (save_events_ext key t t' T I), K, IH.
    + now rewrite !capture_loop_break by assumption.
Qed.

(** Only the low eight bits of a key code count ([char key]): two
    observations whose key codes agree on them give the same run, so ['q']
    and ['s'] act as such with any bits set above. *)
Theorem keys_act_by_low_byte (w w' : world) :
  w_camera w = w_camera w' -> w_frame0 w = w_frame0 w' ->
  char_of_int (w_key0 w) = char_of_int (w_key0 w') ->
  Forall2 same_char_key (w_ticks w) (w_ticks w') ->
  w_result w = w_result w' -> w_gpio w = w_gpio w' ->
  main w = main w'.
Proof.
  intros C F K T R G.
  destruct (w_camera w) eqn:Cw; symmetry in C.
  2:{ now rewrite (main_no_camera w Cw), (main_no_camera w' C). }
  destruct (w_frame0 w) eqn:Fw; symmetry in F.
  2:{ now rewrite (main_no_frame w Cw Fw), (main_no_frame w' C F). }
  unfold main. rewrite (main_body_loop w Cw Fw), (main_body_loop w' C F).
  now rewrite K, (capture_loop_same_chars _ _ T), (after_loop_ext w w' R G).
Qed.

Lemma keys_act_by_low_byte_witness :
  main w_two_saves_flagged = main w_two_saves.
Proof.
  apply keys_act_by_low_byte; try reflexivity.
  repeat constructor.
Defined.

Lemma save_events_saved_length (key : Z) (t t' : tick) :
  List.length (saved_files (save_events key t))
  = List.length (saved_files (save_events key t')).
Proof. unfold save_events. now destruct (key =? key_s). Qed.

Lemma save_events_no_camera_call (key : Z) (t : tick) :
  filter is_camera_call (save_events key t) = [].
Proof. unfold save_events. now destruct (key =? key_s). Qed.

Lemma capture_loop_same_control (ticks ticks' : list tick) :
  Forall2 same_control ticks ticks' ->
  forall key,
    saves_fit key ticks = true -> saves_fit key ticks' = true ->
    snd (capture_loop key ticks) = snd (capture_loop key ticks')
    /\ filter is_camera_call (fst (capture_loop key ticks))
       = filter is_camera_call (fst (capture_loop key ticks'))
    /\ List.length (saved_files (fst (capture_loop key ticks)))
       = List.length (saved_files (fst (capture_loop key ticks'))).
Proof.
  induction 1 as [| t t' rest rest' [Fr K] _ IH]; intros key Fit Fit'; [auto |].
  destruct (Z.eq_dec key key_q) as [-> | N].
  - rewrite !capture_loop_quit. auto.
  - destruct (t_frame t) eqn:F; symmetry in Fr.
    + apply saves_fit_cons in Fit as [Fit Fits].
      apply saves_fit_cons in Fit' as [Fit' Fits'].
      rewrite (capture_loop_cons key t rest N F Fit).
      rewrite (capture_loop_cons key t' rest' N Fr Fit'). cbn [fst snd].
      rewrite K in *.
      destruct (IH (char_of_int (t_key t')) Fits Fits') as [O [Cc S]].
      split; [exact O |]. split.
      * cbn [filter is_camera_call]. rewrite !filter_app.
        rewrite !save_events_no_camera_call. cbn [filter is_camera_call app].
        now rewrite Cc.
      * cbn [saved_files]. rewrite !saved_files_app, !length_app.
        cbn [saved_files]. rewrite S.
        now rewrite (save_events_saved_length key t t').
    + rewrite !capture_loop_break by assumption. auto.
Qed.

(** As long as every file name built for a save fits [filename], the clock
    and the result of [cv::imwrite] are reported but never steer the run: two
    observations with the same frames and keys end the same way, with the
    same calls on camera, window and keyboard and as many frames handed to
    [cv::imwrite].  A save that fails does not end the session. *)
Theorem clock_and_imwrite_do_not_steer (w w' : world) :
  w_camera w = w_camera w' -> w_frame0 w = w_frame0 w' ->
  char_of_int (w_key0 w) = char_of_int (w_key0 w') ->
  Forall2 same_control (w_ticks w) (w_ticks w') ->
  w_result w = w_result w' -> w_gpio w = w_gpio w' ->
  saves_fit (char_of_int (w_key0 w)) (w_ticks w) = true ->
  saves_fit (char_of_int (w_key0 w')) (w_ticks w') = true ->
  snd (main w) = snd (main w')
  /\ filter is_camera_call (fst (main w))
     = filter is_camera_call (fst (main w'))
  /\ List.length (saved_files (fst (main w)))
     = List.length (saved_files (fst (main w'))).
Proof.
  intros C F K T R G Fit Fit'.
  destruct (w_camera w) eqn:Cw; symmetry in C.
  2:{ rewrite (main_no_camera w Cw), (main_no_camera w' C). auto. }
  destruct (w_frame0 w) eqn:Fw; symmetry in F.
  2:{ rewrite (main_no_frame w Cw Fw), (main_no_frame w' C F). auto. }
  rewrite <- K in Fit'.
  destruct (capture_loop_same_control _ _ T (char_of_int (w_key0 w)) Fit Fit')
    as [O [Cc S]].
  destruct (capture_loop (char_of_int (w_key0 w)) (w_ticks w))
    as [levs r] eqn:L.
  destruct (capture_loop (char_of_int (w_key0 w)) (w_ticks w'))
    as [levs' r'] eqn:L'.
  rewrite K in L'. cbn [fst snd] in O, Cc, S. subst r'.
  pose proof (capture_loop_outcome (w_ticks w) (char_of_int (w_key0 w))) as Out.
  rewrite L in Out. cbn [snd] in Out.
  destruct Out as [-> | [[k [-> _]] | ->]].
  - destruct (after_loop_returns w) as [aevs [c A]].
    assert (A' : after_loop w' = (aevs, Return c))
      by (rewrite <- A; symmetry; now apply after_loop_ext).
    rewrite (main_left_loop w levs aevs c Cw Fw L A).
    rewrite (main_left_loop w' levs' aevs c C F L' A').
    cbn [fst snd]. split; [reflexivity |]. split.
    + rewrite !filter_app. now rewrite Cc.
    + rewrite !saved_files_app, !length_app. now rewrite S.
  - rewrite (main_previewing w levs k Cw Fw L).
    rewrite (main_previewing w' levs' k C F L').
    cbn [fst snd]. split; [reflexivity |]. split.
    + rewrite !filter_app. now rewrite Cc.
    + rewrite !saved_files_app, !length_app. now rewrite S.
  - rewrite (main_undefined w levs Cw Fw L).
    rewrite (main_undefined w' levs' C F L').
    cbn [fst snd]. split; [reflexivity |]. split.
    + rewrite !filter_app. now rewrite Cc.
    + rewrite !saved_files_app, !length_app. now rewrite S.
Qed.

Lemma clock_and_imwrite_do_not_steer_witness :
  snd (main w_two_saves_one_failed) = snd (main w_two_saves)
  /\ saved_files (fst (main w_two_saves_one_failed))
     = ["image1700000000.jpg"; "image1700000001.jpg"]%string
  /\ In (EPrintf ("failed to save." ++ nl)%string)
        (fst (main w_two_saves_one_failed)).
Proof.
  assert (T : Forall2 same_control (w_ticks w_two_saves_one_failed)
                (w_ticks w_two_saves))
    by (repeat constructor).
  destruct (clock_and_imwrite_do_not_steer w_two_saves_one_failed w_two_saves
              eq_refl eq_refl eq_refl T eq_refl eq_refl eq_refl eq_refl)
    as [O _].
  split; [exact O |]. split; [reflexivity |].
  vm_compute. tauto.
Defined.

(** ** The file name and its buffer *)

(** Two saves write to the same file exactly when their clock values are
    congruent modulo 2^32, the width of the [int] that [%d] prints. *)
Theorem image_names_collide_iff (t1 t2 : Z) :
  image_filename t1 = image_filename t2 <-> (t1 - t2) mod 4294967296 = 0.
Proof.
  rewrite image_filename_inj. unfold int_of_time.
  pose proof (Z.cong_iff_0 (t1 + 2147483648) (t2 + 2147483648) 4294967296) as E.
  replace (t1 + 2147483648 - (t2 + 2147483648)) with (t1 - t2) in E by lia.
  rewrite <- E. split; intros H; lia.
Qed.

Lemma string_of_uint_length (d : Decimal.uint) :
  String.length (NilEmpty.string_of_uint d) = Decimal.nb_digits d.
Proof. induction d; simpl; auto. Qed.

Lemma of_uint_acc_lower (d : Decimal.uint) :
  forall acc,
    Z.pos acc * 10 ^ Z.of_nat (Decimal.nb_digits d) <= Z.pos (Pos.of_uint_acc d acc).
Proof.
  induction d; intros acc; cbn [Decimal.nb_digits Pos.of_uint_acc];
    [rewrite Z.mul_1_r; lia | ..];
    rewrite Nat2Z.inj_succ, Z.pow_succ_r by lia;
    match goal with
    | |- _ <= Z.pos (Pos.of_uint_acc _ ?a) => specialize (IHd a)
    end;
    assert (0 < 10 ^ Z.of_nat (Decimal.nb_digits d)) by (apply Z.pow_pos_nonneg; lia);
    nia.
Qed.

Lemma of_uint_acc_upper (d : Decimal.uint) :
  forall acc,
    Z.pos (Pos.of_uint_acc d acc)
    < (Z.pos acc + 1) * 10 ^ Z.of_nat (Decimal.nb_digits d).
Proof.
  induction d; intros acc; cbn [Decimal.nb_digits Pos.of_uint_acc];
    [rewrite Z.mul_1_r; lia | ..];
    rewrite Nat2Z.inj_succ, Z.pow_succ_r by lia;
    match goal with
    | |- Z.pos (Pos.of_uint_acc _ ?a) < _ => specialize (IHd a)
    end;
    assert (0 < 10 ^ Z.of_nat (Decimal.nb_digits d)) by (apply Z.pow_pos_nonneg; lia);
    nia.
Qed.

Lemma of_uint_upper (d : Decimal.uint) :
  Z.of_N (Pos.of_uint d) < 10 ^ Z.of_nat (Decimal.nb_digits d).
Proof.
  induction d; cbn [Decimal.nb_digits Pos.of_uint];
    [reflexivity | ..];
    rewrite Nat2Z.inj_succ, Z.pow_succ_r by lia;
    assert (0 < 10 ^ Z.of_nat (Decimal.nb_digits d)) by (apply Z.pow_pos_nonneg; lia);
    [lia | ..];
    match goal with
    | |- Z.of_N (N.pos (Pos.of_uint_acc _ ?a)) < _ =>
        pose proof (of_uint_acc_upper d a)
    end;
    cbn [Z.of_N]; nia.
Qed.

(** The decimal digits of a positive number: as many as its size demands. *)
Lemma to_uint_digits (p : positive) :
  exists m,
    Decimal.nb_digits (Pos.to_uint p) = S m
    /\ 10 ^ Z.of_nat m <= Z.pos p < 10 ^ Z.of_nat (S m).
Proof.
  pose proof (DecimalPos.Unsigned.of_to p) as OT.
  pose proof (of_uint_upper (Pos.to_uint p)) as U. rewrite OT in U.
  cbn [Z.of_N] in U.
  destruct (Pos.to_uint p) as [| l | l | l | l | l | l | l | l | l | l] eqn:E;
    cbn [Decimal.nb_digits] in *.
  - now apply DecimalPos.Unsigned.to_uint_nonnil in E.
  - exfalso. cbn [Pos.of_uint] in OT.
    pose proof (DecimalPos.Unsigned.to_of l) as TO. rewrite OT in TO.
    change (N.to_uint (N.pos p)) with (Pos.to_uint p) in TO. rewrite E in TO.
    destruct l as [| | | | | | | | | |];
      [apply (DecimalPos.Unsigned.to_uint_nonzero p); rewrite E; reflexivity | ..];
      match goal with
      | H : Decimal.D0 ?u = Decimal.unorm ?u |- _ =>
          assert (N : u <> Decimal.Nil) by discriminate;
          pose proof (DecimalFacts.nb_digits_unorm u N) as L;
          rewrite <- H in L; cbn [Decimal.nb_digits] in L; lia
      end.
  - exists (Decimal.nb_digits l). split; [reflexivity |]. split; [| exact U].
    cbn [Pos.of_uint] in OT. injection OT as <-.
    pose proof (of_uint_acc_lower l 1). lia.
  - exists (Decimal.nb_digits l). split; [reflexivity |]. split; [| exact U].
    cbn [Pos.of_uint] in OT. injection OT as <-.
    pose proof (of_uint_acc_lower l 2). lia.
  - exists (Decimal.nb_digits l). split; [reflexivity |]. split; [| exact U].
    cbn [Pos.of_uint] in OT. injection OT as <-.
    pose proof (of_uint_acc_lower l 3). lia.
  - exists (Decimal.nb_digits l). split; [reflexivity |]. split; [| exact U].
    cbn [Pos.of_uint] in OT. injection OT as <-.
    pose proof (of_uint_acc_lower l 4). lia.
  - exists (Decimal.nb_digits l). split; [reflexivity |]. split; [| exact U].
    cbn [Pos.of_uint] in OT. injection OT as <-.
    pose proof (of_uint_acc_lower l 5). lia.
  - exists (Decimal.nb_digits l). split; [reflexivity |]. split; [| exact U].
    cbn [Pos.of_uint] in OT. injection OT as <-.
    pose proof (of_uint_acc_lower l 6). lia.
  - exists (Decimal.nb_digits l). split; [reflexivity |]. split; [| exact U].
    cbn [Pos.of_uint] in OT. injection OT as <-.
    pose proof (of_uint_acc_lower l 7). lia.
  - exists (Decimal.nb_digits l). split; [reflexivity |]. split; [| exact U].
    cbn [Pos.of_uint] in OT. injection OT as <-.
    pose proof (of_uint_acc_lower l 8). lia.
  - exists (Decimal.nb_digits l). split; [reflexivity |]. split; [| exact U].
    cbn [Pos.of_uint] in OT. injection OT as <-.
    pose proof (of_uint_acc_lower l 9). lia.
Qed.

Lemma pow10_le_inv (a b : nat) :
  10 ^ Z.of_nat a < 10 ^ Z.of_nat b -> (a < b)%nat.
Proof.
  intros H. apply Z.pow_lt_mono_r_iff in H; lia.
Qed.

Lemma int_of_time_range (t : Z) :
  -2147483648 <= int_of_time t < 2147483648.
Proof.
  unfold int_of_time.
  pose proof (Z.mod_pos_bound (t + 2147483648) 4294967296 eq_refl). lia.
Qed.

Lemma image_filename_length (t : Z) :
  String.length (image_filename t)
  = (9 + String.length (string_of_Z (int_of_time t)))%nat.
Proof.
  unfold image_filename. cbn [append String.length].
  rewrite length_append. cbn [String.length]. lia.
Qed.

(** [filename] has 20 bytes.  The name that [sprintf] builds has at most 20
    characters, and at most 19, so that it fits with its final NUL, exactly
    when the clock value read as an [int] is not below -999999999: for every
    second from 1970 to 2038 the buffer is large enough; for an [int] of ten
    digits and a sign it is one byte short. *)
Theorem image_filename_fits (t : Z) :
  (String.length (image_filename t) <= 20)%nat
  /\ ((String.length (image_filename t) <= 19)%nat
      <-> -999999999 <= int_of_time t).
Proof.
  rewrite image_filename_length.
  pose proof (int_of_time_range t) as R.
  unfold string_of_Z.
  destruct (int_of_time t) as [| p | p]; cbn [Z.to_int NilEmpty.string_of_int].
  - cbn. split; [lia | split; lia].
  - rewrite string_of_uint_length.
    destruct (to_uint_digits p) as [m [-> [Lo Hi]]].
    assert (m < 10)%nat
      by (apply pow10_le_inv; change (10 ^ Z.of_nat 10) with 10000000000; lia).
    split; [lia | split; lia].
  - cbn [String.length]. rewrite string_of_uint_length.
    destruct (to_uint_digits p) as [m [-> [Lo Hi]]].
    assert (m < 10)%nat
      by (apply pow10_le_inv; change (10 ^ Z.of_nat 10) with 10000000000; lia).
    split; [lia |]. split; intros Fit.
    + assert (S m <= 9)%nat by lia.
      assert (10 ^ Z.of_nat (S m) <= 10 ^ Z.of_nat 9)
        by (apply Z.pow_le_mono_r; lia).
      change (10 ^ Z.of_nat 9) with 1000000000 in *. lia.
    + assert (m < 9)%nat
        by (apply pow10_le_inv; change (10 ^ Z.of_nat 9) with 1000000000; lia).
      lia.
Qed.

(** ** Reading the result file *)

Lemma print_lines_step (fuel : nat) (c : ascii) (s : string) :
  print_lines (S fuel) (String c s)
  = (EPrintf (c_str (fst (fgets_chars 99 (String c s))))
       :: fst (print_lines fuel (snd (fgets_chars 99 (String c s)))),
     snd (print_lines fuel (snd (fgets_chars 99 (String c s))))).
Proof.
  cbn [print_lines fgets].
  change (Z.to_nat (sizeof_line - 1)) with 99%nat.
  destruct (fgets_chars 99 (String c s)) as [line rest].
  unfold printf. rewrite bind_emit. reflexivity.
Qed.

Lemma fgets_chars_app (n : nat) :
  forall s, (fst (fgets_chars n s) ++ snd (fgets_chars n s))%string = s.
Proof.
  induction n as [| n IH]; intros s; [reflexivity |].
  destruct s as [| c s]; [reflexivity |]. cbn [fgets_chars].
  destruct (Ascii.eqb c "010"); [reflexivity |].
  specialize (IH s). destruct (fgets_chars n s) as [l r].
  cbn [fst snd append] in *. now rewrite IH.
Qed.

Lemma fgets_chars_length (n : nat) :
  forall s, (String.length (fst (fgets_chars n s)) <= n)%nat.
Proof.
  induction n as [| n IH]; intros s; [simpl; lia |].
  destruct s as [| c s]; [simpl; lia |]. cbn [fgets_chars].
  destruct (Ascii.eqb c "010"); [simpl; lia |].
  specialize (IH s). destruct (fgets_chars n s) as [l r].
  cbn [fst String.length] in *. lia.
Qed.

Lemma c_str_length (s : string) :
  (String.length (c_str s) <= String.length s)%nat.
Proof.
  induction s as [| c s IH]; [simpl; lia |]. cbn [c_str].
  destruct (Ascii.eqb c "000"); simpl; lia.
Qed.

Lemma c_str_no_nul (s : string) : no_nul s = true -> c_str s = s.
Proof.
  induction s as [| c s IH]; [reflexivity |]. cbn [no_nul c_str].
  destruct (Ascii.eqb c "000"); [discriminate |].
  cbn [negb andb]. intros H. now rewrite IH.
Qed.

Lemma no_nul_append (a b : string) :
  no_nul (a ++ b) = no_nul a && no_nul b.
Proof.
  induction a as [| c a IH]; [reflexivity |].
  cbn [append no_nul]. now rewrite IH, andb_assoc.
Qed.

Lemma print_lines_echo (fuel : nat) :
  forall content,
    (String.length content <= fuel)%nat -> no_nul content = true ->
    printed (fst (print_lines fuel content)) = content.
Proof.
  induction fuel as [| fuel IH]; intros content L N.
  - destruct content; [reflexivity | simpl in L; lia].
  - destruct content as [| c s]; [reflexivity |].
    rewrite print_lines_step. cbn [fst printed].
    pose proof (fgets_chars_progress 98 c s) as P.
    pose proof (fgets_chars_app 99 (String c s)) as A.
    rewrite <- A, no_nul_append in N. apply andb_prop in N as [N1 N2].
    rewrite (c_str_no_nul _ N1).
    rewrite IH; [exact A | simpl in L; lia | exact N2].
Qed.

(** The lines-72-to-74 loop copies image1.txt to stdout: when the file holds
    no NUL character, what the calls of [printf] write, put together, is the
    content of the file, however long its lines are. *)
Theorem result_file_echoed (content : string) :
  no_nul content = true ->
  printed (line_events content) = content.
Proof.
  intros N. unfold line_events. now apply print_lines_echo.
Qed.

Lemma result_file_echoed_witness :
  printed (line_events (detection_line ++ detection_line))
  = (detection_line ++ detection_line)%string.
Proof.
  apply result_file_echoed. reflexivity.
Defined.

Lemma print_lines_chunks (fuel : nat) :
  forall content,
    (String.length content <= fuel)%nat ->
    Forall (fun e => printf_within 99 e = true) (fst (print_lines fuel content))
    /\ (List.length (fst (print_lines fuel content)) <= String.length content)%nat.
Proof.
  induction fuel as [| fuel IH]; intros content L.
  - destruct content; [| simpl in L; lia]. split; [constructor | simpl; lia].
  - destruct content as [| c s]; [split; [constructor | simpl; lia] |].
    rewrite print_lines_step. cbn [fst].
    pose proof (fgets_chars_progress 98 c s) as P.
    pose proof (fgets_chars_length 99 (String c s)) as B.
    pose proof (c_str_length (fst (fgets_chars 99 (String c s)))) as Cl.
    simpl in L.
    destruct (IH (snd (fgets_chars 99 (String c s))) ltac:(lia)) as [F Len].
    split.
    + constructor; [| exact F]. cbn [printf_within]. apply Nat.leb_le. lia.
    + cbn [List.length String.length]. lia.
Qed.

(** [line] has 100 bytes: every text the loop hands to [printf] has at most
    99 characters, whatever the length of the lines in the file, and the loop
    makes at most one call per character of the file. *)
Theorem line_buffer_bound (content : string) :
  Forall (fun e => printf_within 99 e = true) (line_events content)
  /\ (List.length (line_events content) <= String.length content)%nat.
Proof. unfold line_events. now apply print_lines_chunks. Qed.

(** ** The order of the stages *)

Lemma split_unique (p : event -> bool) (A : list event) :
  forall (x : event) (B pre : list event) (y : event) (post : list event),
    filter p A = [] -> filter p B = [] -> p y = true ->
    A ++ x :: B = pre ++ y :: post ->
    pre = A /\ y = x /\ post = B.
Proof.
  induction A as [| a A IH]; intros x B [| e pre] y post FA FB Py E;
    cbn [app] in E.
  - injection E as -> ->. auto.
  - injection E as -> ->. rewrite filter_app in FB. cbn [filter] in FB.
    rewrite Py in FB. apply app_eq_nil in FB as [_ FB]. discriminate.
  - injection E as -> _. cbn [filter] in FA. rewrite Py in FA. discriminate.
  - injection E as -> E. cbn [filter] in FA.
    destruct (p e); [discriminate |].
    destruct (IH x B pre y post FA FB Py E) as [-> [-> ->]]. auto.
Qed.

(** Every run is of one of three kinds: an exit before the loop, a run that
    has not gone beyond the loop, a return after the loop. *)
Lemma main_cases (w : world) :
  (exists evs c, main w = (evs, Return c)
                 /\ (w_camera w = false \/ w_frame0 w = false)
                 /\ Forall (fun e => is_capture_event e = true
                                     \/ e = EVideoCapture 0 (w_camera w)
                                     \/ e = ECapDestructor) evs)
  \/ (exists levs r, main w = (preamble ++ levs, r)
                     /\ Forall (fun e => is_capture_event e = true) levs)
  \/ (exists evs c, main w = (evs, Return c)
                    /\ w_camera w = true /\ w_frame0 w = true).
Proof.
  destruct (w_camera w) eqn:C.
  2:{ left. eexists _, _. split; [now apply main_no_camera |].
      split; [auto |].
      apply Forall_cons; [right; left; reflexivity |].
      apply Forall_cons; [left; reflexivity |].
      apply Forall_cons; [right; right; reflexivity | constructor]. }
  destruct (w_frame0 w) eqn:F.
  2:{ left. eexists _, _. split; [now apply main_no_frame |].
      split; [auto |].
      apply Forall_cons; [right; left; reflexivity |].
      apply Forall_cons; [left; reflexivity |].
      apply Forall_cons; [left; reflexivity |].
      apply Forall_cons; [right; right; reflexivity | constructor]. }
  right.
  destruct (capture_loop (char_of_int (w_key0 w)) (w_ticks w)) as [levs r] eqn:L.
  pose proof (capture_loop_outcome (w_ticks w) (char_of_int (w_key0 w))) as O.
  pose proof (capture_loop_events (w_ticks w) (char_of_int (w_key0 w))) as E.
  rewrite L in O, E. cbn [fst snd] in O, E.
  destruct O as [-> | [[k [-> _]] | ->]].
  - right. destruct (after_loop_returns w) as [aevs [c A]].
    eexists _, c. split; [eapply main_left_loop; eassumption | auto].
  - left. exists levs, (Await k). split; [now apply main_previewing | exact E].
  - left. exists levs, Undefined. split; [now apply main_undefined | exact E].
Qed.

(** A trace without a given kind of event cannot be split at one. *)
Lemma no_split (p : event -> bool) (tr pre : list event) (y : event)
    (post : list event) :
  filter p tr = [] -> p y = true -> tr <> pre ++ y :: post.
Proof.
  intros F Py ->. rewrite filter_app in F. cbn [filter] in F.
  rewrite Py in F. apply app_eq_nil in F as [_ F]. discriminate.
Qed.

Lemma early_exit_filter_nil (p : event -> bool) (b : bool) (evs : list event) :
  (forall e, is_capture_event e = true -> p e = false) ->
  p (EVideoCapture 0 b) = false -> p ECapDestructor = false ->
  Forall (fun e => is_capture_event e = true
                   \/ e = EVideoCapture 0 b \/ e = ECapDestructor) evs ->
  filter p evs = [].
Proof.
  intros Pc Pv Pd F.
  induction F as [| e l [H | [-> | ->]] _ IH]; cbn [filter]; [reflexivity | ..].
  - now rewrite (Pc e H).
  - now rewrite Pv.
  - now rewrite Pd.
Qed.

(** The detector is started only once the camera is released and the preview
    window closed: at every call of [system] in a run, the command is the
    one of line 54 and no resource is held. *)
Theorem detector_after_release (w : world) (pre : list event) (cmd : string)
    (post : list event) :
  fst (main w) = pre ++ ESystem cmd :: post ->
  cmd = detector_command
  /\ held_after pre = no_resources
  /\ filter is_camera_call post = [].
Proof.
  intros E.
  destruct (main_cases w)
    as [[evs [c [M [_ F]]]] | [[levs [k [M F]]] | [evs [c [M [C Fr]]]]]];
    rewrite M in E; cbn [fst] in E.
  - exfalso. revert E. apply no_split with (p := is_system); [| reflexivity].
    eapply early_exit_filter_nil; [disjoint_kinds | reflexivity | reflexivity | exact F].
  - exfalso. revert E. apply no_split with (p := is_system); [| reflexivity].
    rewrite filter_app.
    now rewrite (filter_none is_system is_capture_event levs) by (disjoint_kinds || exact F).
  - set (levs := fst (capture_loop (char_of_int (w_key0 w)) (w_ticks w))) in *.
    assert (H : exists B,
               evs = (preamble ++ levs ++ [ECapRelease; EDestroyAllWindows])
                       ++ ESystem detector_command :: B
               /\ filter is_system B = []
               /\ filter is_camera_call B = []).
    { destruct (main_returned_cases w evs c M C Fr)
        as [[R [_ ->]] | [[content [R [_ [_ ->]]]] | [content [R [_ [_ ->]]]]]];
        fold levs; unfold read_events.
      - eexists. split; [rewrite <- !app_assoc; reflexivity |].
        split; reflexivity.
      - exists ([EFopen result_filename "r" true] ++ line_events content
                  ++ [EFclose; EWiringPiSetupGpio;
                      EPrintf "failed to WiringPi library initialization";
                      ECapDestructor]).
        split; [rewrite <- !app_assoc; reflexivity |].
        split; rewrite !filter_app, line_filter_nil by disjoint_kinds;
          reflexivity.
      - exists ([EFopen result_filename "r" true] ++ line_events content
                  ++ EFclose :: EWiringPiSetupGpio :: pulse ++ [ECapDestructor]).
        split; [rewrite <- !app_assoc; reflexivity |].
        split; rewrite !filter_app, line_filter_nil by disjoint_kinds;
          reflexivity. }
    destruct H as [B [-> [FB CB]]].
    apply split_unique with (p := is_system) in E;
      [| | exact FB | reflexivity].
    + destruct E as [-> [Y ->]]. injection Y as ->.
      split; [reflexivity |]. split; [| exact CB].
      rewrite app_assoc, held_after_app. unfold levs.
      rewrite held_after_loop. reflexivity.
    + unfold levs. filter_trace. reflexivity.
Qed.

Lemma detector_after_release_witness :
  fst (main w_save_empty_result)
  = (preamble
       ++ [ECapRead; EImshow "Camera"; EImwrite "image1700000000.jpg";
           EPrintf ("image saved: image1700000000.jpg" ++ nl)%string;
           EWaitKey 1; ECapRelease; EDestroyAllWindows])
      ++ ESystem detector_command
           :: [EFopen result_filename "r" true; EFclose; EWiringPiSetupGpio]
                ++ pulse ++ [ECapDestructor]
  /\ held_after
       (preamble
          ++ [ECapRead; EImshow "Camera"; EImwrite "image1700000000.jpg";
              EPrintf ("image saved: image1700000000.jpg" ++ nl)%string;
              EWaitKey 1; ECapRelease; EDestroyAllWindows])
     = no_resources.
Proof.
  split; [reflexivity |].
  destruct (detector_after_release w_save_empty_result
              (preamble
                 ++ [ECapRead; EImshow "Camera"; EImwrite "image1700000000.jpg";
                     EPrintf ("image saved: image1700000000.jpg" ++ nl)%string;
                     EWaitKey 1; ECapRelease; EDestroyAllWindows])
              detector_command
              ([EFopen result_filename "r" true; EFclose; EWiringPiSetupGpio]
                 ++ pulse ++ [ECapDestructor])
              eq_refl) as [_ [H _]].
  exact H.
Defined.

(** The GPIO layer is touched only at the very end: at the call of
    [wiringPiSetupGpio] the detector has been run, image1.txt has been opened
    and closed again, and no resource is held; no pin call comes before. *)
Theorem gpio_after_result_read (w : world) (pre post : list event) :
  fst (main w) = pre ++ EWiringPiSetupGpio :: post ->
  held_after pre = no_resources
  /\ In (ESystem detector_command) pre
  /\ In (EFopen result_filename "r" true) pre
  /\ In EFclose pre
  /\ filter is_pin_event pre = [].
Proof.
  intros E.
  destruct (main_cases w)
    as [[evs [c [M [_ F]]]] | [[levs [k [M F]]] | [evs [c [M [C Fr]]]]]];
    rewrite M in E; cbn [fst] in E.
  - exfalso. revert E. apply no_split with (p := is_gpio_setup); [| reflexivity].
    eapply early_exit_filter_nil; [disjoint_kinds | reflexivity | reflexivity | exact F].
  - exfalso. revert E. apply no_split with (p := is_gpio_setup); [| reflexivity].
    rewrite filter_app.
    now rewrite (filter_none is_gpio_setup is_capture_event levs)
      by (disjoint_kinds || exact F).
  - set (levs := fst (capture_loop (char_of_int (w_key0 w)) (w_ticks w))) in *.
    assert (H : (filter is_gpio_setup evs = [])
                \/ exists content B,
                     evs = (preamble ++ levs ++ read_events content)
                             ++ EWiringPiSetupGpio :: B
                     /\ filter is_gpio_setup B = []).
    { destruct (main_returned_cases w evs c M C Fr)
        as [[R [_ ->]] | [[content [R [_ [_ ->]]]] | [content [R [_ [_ ->]]]]]];
        fold levs.
      - left. unfold levs. filter_trace. reflexivity.
      - right. exists content. eexists.
        split; [rewrite <- !app_assoc; reflexivity | reflexivity].
      - right. exists content. eexists.
        split; [rewrite <- !app_assoc; reflexivity | reflexivity]. }
    destruct H as [N | [content [B [-> FB]]]].
    + exfalso. revert E. now apply no_split with (p := is_gpio_setup).
    + apply split_unique with (p := is_gpio_setup) in E;
        [| | exact FB | reflexivity].
      2:{ unfold levs. filter_trace. reflexivity. }
      destruct E as [-> _].
      split; [| split; [| split; [| split]]].
      * rewrite app_assoc, held_after_app. unfold levs.
        rewrite held_after_loop. unfold read_events.
        rewrite !fold_left_app. cbn [fold_left track].
        rewrite fold_track_printf by apply line_events_printf. reflexivity.
      * apply in_or_app. right. apply in_or_app. right.
        unfold read_events. cbn. auto.
      * apply in_or_app. right. apply in_or_app. right.
        unfold read_events. cbn. auto.
      * apply in_or_app. right. apply in_or_app. right.
        unfold read_events. apply in_or_app. right.
        apply in_or_app. right. now left.
      * unfold levs. filter_trace. reflexivity.
Qed.

Lemma gpio_after_result_read_witness :
  fst (main w_empty_result)
  = (preamble
       ++ [ECapRelease; EDestroyAllWindows; ESystem detector_command;
           EFopen result_filename "r" true; EFclose])
      ++ EWiringPiSetupGpio :: pulse ++ [ECapDestructor]
  /\ In EFclose
       (preamble
          ++ [ECapRelease; EDestroyAllWindows; ESystem detector_command;
              EFopen result_filename "r" true; EFclose]).
Proof.
  split; [reflexivity |].
  destruct (gpio_after_result_read w_empty_result
              (preamble
                 ++ [ECapRelease; EDestroyAllWindows; ESystem detector_command;
                     EFopen result_filename "r" true; EFclose])
              (pulse ++ [ECapDestructor])
              eq_refl) as [_ [_ [_ [H _]]]].
  exact H.
Defined.

(** What follows the loop does not depend on the session: two runs that
    leave the loop, with the same image1.txt and the same GPIO set-up, return
    the same status after the same calls from [cap.release()] on, whatever
    keys were pressed and whether or not a frame was saved. *)
Theorem stages_after_loop_ignore_session (w w' : world)
    (evs evs' : list event) (c c' : Z) :
  main w = (evs, Return c) -> main w' = (evs', Return c') ->
  w_camera w = true -> w_frame0 w = true ->
  w_camera w' = true -> w_frame0 w' = true ->
  w_result w = w_result w' -> w_gpio w = w_gpio w' ->
  c = c'
  /\ exists tail,
       evs = preamble ++ fst (capture_loop (char_of_int (w_key0 w)) (w_ticks w))
               ++ ECapRelease :: tail
       /\ evs' = preamble
                   ++ fst (capture_loop (char_of_int (w_key0 w')) (w_ticks w'))
                   ++ ECapRelease :: tail.
Proof.
  intros M M' C F C' F' R G.
  destruct (main_returned_inv w evs c M C F) as [levs [aevs [L [A ->]]]].
  destruct (main_returned_inv w' evs' c' M' C' F') as [levs' [aevs' [L' [A' ->]]]].
  rewrite (after_loop_ext w w' R G), A' in A. injection A as <- <-.
  split; [reflexivity |]. rewrite L, L'. cbn [fst].
  assert (H : exists tail, aevs' = ECapRelease :: tail).
  { destruct (w_result w') as [content |] eqn:Rw.
    - destruct (Z.eq_dec (w_gpio w') (-1)) as [Gw | Gw].
      + rewrite (after_loop_gpio_failed w' content Rw Gw) in A'.
        injection A' as <- _. unfold read_events. cbn [app]. eauto.
      + rewrite (after_loop_pulse w' content Rw Gw) in A'.
        injection A' as <- _. unfold read_events. cbn [app]. eauto.
    - rewrite (after_loop_missing w' Rw) in A'. injection A' as <- _. eauto. }
  destruct H as [tail ->]. exists (tail ++ [ECapDestructor]). auto.
Qed.

Lemma stages_after_loop_ignore_session_witness :
  saved_files (fst (main w_nothing_saved)) = []
  /\ saved_files (fst (main w_two_saves)) <> []
  /\ exists tail,
       fst (main w_two_saves)
       = preamble
           ++ fst (capture_loop (char_of_int (w_key0 w_two_saves))
                     (w_ticks w_two_saves))
           ++ ECapRelease :: tail
       /\ fst (main w_nothing_saved)
          = preamble
              ++ fst (capture_loop (char_of_int (w_key0 w_nothing_saved))
                        (w_ticks w_nothing_saved))
              ++ ECapRelease :: tail.
Proof.
  split; [reflexivity |]. split; [discriminate |].
  exact (proj2 (stages_after_loop_ignore_session w_two_saves w_nothing_saved
                  (fst (main w_two_saves)) (fst (main w_nothing_saved)) 0 0
                  eq_refl eq_refl eq_refl eq_refl eq_refl eq_refl
                  eq_refl eq_refl)).
Defined.
